(** * Log-domain activation quantizer of autotrain/trainers/clm/__main__.py

    A shallow embedding of the straight-through quantizer that the causal
    language-model trainer installs on the forward outputs of a model
    (lines 388-487 of [src/autotrain/trainers/clm/__main__.py]):

    - the constants derived from the mantissa budget;
    - [STEFunction_structured.forward], both the tuple branch and the
      single-tensor branch, and [STEFunction_structured.backward];
    - [activation_hook] and the loop that registers it on selected modules.

    Numbers.  A tensor element is a value of [fval]: a real number, one of the
    two infinities, or NaN.  Finite floating-point values are idealised as real
    numbers, so [log2], [pow] and [round] are exact; the special values follow
    IEEE-754 and the torch operators, which matters because the tuple branch
    takes [log2] of negative numbers.  Signed zeros are not distinguished. *)

From Stdlib Require Import Reals Lra Lia ZArith QArith Qround DecimalString.
From stdpp Require Import base list strings gmap.

Local Open Scope R_scope.

(** ** Scalars *)

Inductive fval : Type :=
  | NaN
  | PInf
  | NInf
  | Fin (r : R).

Definition Rltb (a b : R) : bool := if Rlt_dec a b then true else false.

Definition Rnonzerob (a : R) : bool := if Req_dec_T a 0 then false else true.

(** [torch.abs] *)
Definition fabs (x : fval) : fval :=
  match x with
  | NaN => NaN
  | PInf | NInf => PInf
  | Fin r => Fin (Rabs r)
  end.

(** unary minus *)
Definition fneg (x : fval) : fval :=
  match x with
  | NaN => NaN
  | PInf => NInf
  | NInf => PInf
  | Fin r => Fin (- r)
  end.

(** [torch.clamp(x, min=lo, max=hi)] is [min(max(x, lo), hi)]; NaN stays NaN. *)
Definition fclamp (lo hi : R) (x : fval) : fval :=
  match x with
  | NaN => NaN
  | PInf => Fin hi
  | NInf => Fin (Rmin lo hi)
  | Fin r => Fin (Rmin (Rmax r lo) hi)
  end.

(** [x < 0], [x > 0] and [x != 0]; every ordered comparison with NaN is false,
    and NaN differs from zero. *)
Definition flt0 (x : fval) : bool :=
  match x with
  | NaN | PInf => false
  | NInf => true
  | Fin r => Rltb r 0
  end.

Definition fgt0 (x : fval) : bool :=
  match x with
  | NaN | NInf => false
  | PInf => true
  | Fin r => Rltb 0 r
  end.

Definition fnonzero (x : fval) : bool :=
  match x with
  | NaN | PInf | NInf => true
  | Fin r => Rnonzerob r
  end.

(** [a > b] *)
Definition fgt (a b : fval) : bool :=
  match a, b with
  | NaN, _ | _, NaN => false
  | PInf, PInf => false
  | PInf, _ => true
  | NInf, _ => false
  | Fin _, PInf => false
  | Fin _, NInf => true
  | Fin x, Fin y => Rltb y x
  end.

(** [torch.log2]: NaN below zero, minus infinity at zero. *)
Definition log2R (r : R) : R := ln r / ln 2.

Definition flog2 (x : fval) : fval :=
  match x with
  | NaN | NInf => NaN
  | PInf => PInf
  | Fin r => if Rltb 0 r then Fin (log2R r)
             else if Rnonzerob r then NaN else NInf
  end.

(** [torch.pow(2, x)] *)
Definition pow2R (r : R) : R := Rpower 2 r.

Definition fpow2 (x : fval) : fval :=
  match x with
  | NaN => NaN
  | PInf => PInf
  | NInf => Fin 0
  | Fin r => Fin (pow2R r)
  end.

(** [torch.round] rounds to the nearest integer, halfway cases to the even one. *)
Definition round_half_even (x : R) : Z :=
  let n := Zfloor x in
  let f := x - IZR n in
  if Rltb f (1 / 2) then n
  else if Rltb (1 / 2) f then (n + 1)%Z
  else if Z.even n then n else (n + 1)%Z.

Definition fround (x : fval) : fval :=
  match x with
  | Fin r => Fin (IZR (round_half_even r))
  | _ => x
  end.

(** Product and quotient of a tensor element by a Python integer [k]. The
    three scale constants are the only integers the quantizer uses this way;
    they are strictly positive, which is the case written out here (a special
    value keeps its sign, a finite one is scaled). *)
Definition fmul_int (x : fval) (k : Z) : fval :=
  match x with
  | Fin r => Fin (r * IZR k)
  | _ => x
  end.

Definition fdiv_int (x : fval) (k : Z) : fval :=
  match x with
  | Fin r => Fin (r / IZR k)
  | _ => x
  end.

(** [x - k] for an integer literal [k] *)
Definition fsub_int (x : fval) (k : Z) : fval :=
  match x with
  | Fin r => Fin (r - IZR k)
  | _ => x
  end.

(** [torch.max] of all elements: NaN propagates; an empty tensor raises. *)
Definition fmax2 (a b : fval) : fval :=
  match a, b with
  | NaN, _ | _, NaN => NaN
  | _, _ => if fgt b a then b else a
  end.

Definition torch_max (l : list fval) : option fval :=
  match l with
  | [] => None
  | x :: l' => Some (foldl fmax2 x l')
  end.

(** ** The constants of the enclosing scope (lines 390-409)

    Python integers are [Z]; [float(2**n)] is the real [2^n], and [2**-n] on
    integers is the float [1/2^n]. *)

Record scope : Type := mkScope {
  num_bit_mantissa : Z;
  threshold_mantissa : Z;
  threshold_up : R;
  threshold_down : R;
  num_frac_low_prec : Z;
  num_frac_high_prec : Z;
  scale_low_prec : Z;
  scale_high_prec : Z;
  num_frac_highest_prec : Z;
  scale_highest_prec : Z
}.

Definition train_scope : scope :=
  let num_bit_mantissa := 5%Z in
  let threshold_mantissa := (2 ^ (num_bit_mantissa - 1))%Z in
  let threshold_up := IZR (2 ^ threshold_mantissa) in
  let threshold_down := / IZR (2 ^ threshold_mantissa) in
  let num_frac_low_prec := 2%Z in
  let num_frac_high_prec := (num_frac_low_prec + 2)%Z in
  let scale_low_prec := (2 ^ num_frac_low_prec)%Z in
  let scale_high_prec := (2 ^ num_frac_high_prec)%Z in
  let num_frac_highest_prec := (num_frac_high_prec + 2)%Z in
  let scale_highest_prec := (2 ^ num_frac_highest_prec)%Z in
  mkScope num_bit_mantissa threshold_mantissa threshold_up threshold_down
          num_frac_low_prec num_frac_high_prec scale_low_prec scale_high_prec
          num_frac_highest_prec scale_highest_prec.

(** ** Tensors and whole-tensor operators

    A tensor is its shape and its elements in row-major order.  An index row
    returned by [Tensor.nonzero()] is represented by the row-major position of
    the element it addresses; the rows come in that order. *)

Record tensor : Type := mkTensor { shape : list nat; data : list fval }.

(** [t.clone()]: a new tensor with the same shape and elements. *)
Definition clone (t : tensor) : tensor := mkTensor (shape t) (data t).

(** [torch.where(c, a, b)] on operands of one shape. *)
Fixpoint where_ (c : list bool) (a b : list fval) : list fval :=
  match c, a, b with
  | ci :: c', ai :: a', bi :: b' => (if ci then ai else bi) :: where_ c' a' b'
  | _, _, _ => []
  end.

Fixpoint nonzero_from (k : nat) (l : list fval) : list nat :=
  match l with
  | [] => []
  | x :: l' => if fnonzero x then k :: nonzero_from (S k) l'
               else nonzero_from (S k) l'
  end.

Definition nonzero (l : list fval) : list nat := nonzero_from 0 l.

(** What a call does: it returns a value or raises. *)
Inductive outcome (A : Type) : Type :=
  | Returned (a : A)
  | Raised (exc : string).
Arguments Returned {A} a.
Arguments Raised {A} exc.

#[global] Instance outcome_ret : MRet outcome := fun A a => Returned a.
#[global] Instance outcome_bind : MBind outcome := fun A B f m =>
  match m with
  | Returned a => f a
  | Raised e => Raised e
  end.
#[global] Instance outcome_fmap : FMap outcome := fun A B f m =>
  match m with
  | Returned a => Returned (f a)
  | Raised e => Raised e
  end.

Definition of_option {A} (exc : string) (o : option A) : outcome A :=
  match o with
  | Some a => Returned a
  | None => Raised exc
  end.

(** [l[idx]] with a list of positions: a position out of range raises. *)
Definition index_get (l : list fval) (idx : list nat) : outcome (list fval) :=
  mapM (fun i => of_option "IndexError" (l !! i)) idx.

(** [l[idx] = vs]: one assignment per position, in order. *)
Fixpoint index_put (l : list fval) (idx : list nat) (vs : list fval)
  : outcome (list fval) :=
  match idx, vs with
  | [], [] => Returned l
  | i :: idx', v :: vs' =>
      if decide (i < length l)%nat then index_put (<[i := v]> l) idx' vs'
      else Raised "IndexError"
  | _, _ => Raised "RuntimeError"
  end.

(** The result of a call together with what it printed. *)
Record run (A : Type) : Type := mkRun { stdout : list string; result : outcome A }.
Arguments mkRun {A} stdout result.
Arguments stdout {A} r.
Arguments result {A} r.

(** The argument of [forward]: a tensor or a tuple of tensors. *)
Inductive pyvalue : Type :=
  | PTensor (t : tensor)
  | PTuple (ts : list tensor).

(** The autograd context; [forward] saves nothing in it. *)
Record context : Type := mkContext { saved_tensors : list tensor }.

(** ** STEFunction_structured *)

Section STEFunction_structured.

Variable sc : scope.

(** [torch.round(log_x * scale) / scale] *)
Definition round_to_scale (scale : Z) (log_x : list fval) : list fval :=
  map (fun x => fdiv_int x scale)
      (map fround (map (fun x => fmul_int x scale) log_x)).

(** Lines 436-437 (and the first [torch.where] of line 430). *)
Definition range_clamp (output : list fval) : list fval :=
  let clamped_output :=
    map (fclamp (threshold_down sc) (threshold_up sc)) (map fabs output) in
  where_ (map flt0 output) (map fneg clamped_output) clamped_output.

(** Lines 441-454, and again 456-468: the two branches differ only in the
    number of columns of [non_zero_indices]. *)
Definition tier_quantize (output : list fval) : outcome (list fval) :=
  let non_zero_indices := nonzero output in
  non_zero_values ← index_get output non_zero_indices;
  if decide (0 < length non_zero_values)%nat then
    let log_x := where_ (map fgt0 non_zero_values)
                        (map flog2 non_zero_values)
                        (map flog2 (map fneg non_zero_values)) in
    let quant_exponent_low_prec := round_to_scale (scale_low_prec sc) log_x in
    let quant_exponent_high_prec := round_to_scale (scale_high_prec sc) log_x in
    let quant_exponent_highest_prec :=
      round_to_scale (scale_highest_prec sc) log_x in
    max_val ← of_option "RuntimeError" (torch_max log_x);
    let quant_exponent :=
      where_ (map (fun l => fgt l (fsub_int max_val 5)) log_x)
             (where_ (map (fun l => fgt l (fsub_int max_val 3)) log_x)
                     quant_exponent_highest_prec quant_exponent_high_prec)
             quant_exponent_low_prec in
    let quantized_values :=
      where_ (map fgt0 non_zero_values)
             (map fpow2 quant_exponent)
             (map fneg (map fpow2 quant_exponent)) in
    index_put output non_zero_indices quantized_values
  else Returned output.

(** The [else] branch of [forward], lines 434-471. *)
Definition forward_tensor (input : tensor) : run tensor :=
  let output := clone input in
  let output := mkTensor (shape output) (range_clamp (data output)) in
  if decide (length (shape output) = 3%nat) then
    mkRun [] (mkTensor (shape output) <$> tier_quantize (data output))
  else if decide (length (shape output) = 2%nat) then
    mkRun [] (mkTensor (shape output) <$> tier_quantize (data output))
  else
    mkRun ["Out of shape"%string] (Returned output).

(** The exponent selected inside line 431 for the operand [u], which is [t]
    for the positive elements and [-t] for the negative ones. The maximum is
    taken over [log2] of the whole operand. *)
Definition tuple_exponent (u : list fval) : outcome (list fval) :=
  let log_u := map flog2 u in
  max_u ← of_option "RuntimeError" (torch_max log_u);
  Returned
    (where_ (map (fun l => fgt l (fsub_int max_u 5)) log_u)
            (where_ (map (fun l => fgt l (fsub_int max_u 3)) log_u)
                    (round_to_scale (scale_highest_prec sc) log_u)
                    (round_to_scale (scale_high_prec sc) log_u))
            (round_to_scale (scale_low_prec sc) log_u)).

(** Line 431, for one member of the tuple. *)
Definition tuple_quantize (t : tensor) : outcome tensor :=
  e_pos ← tuple_exponent (data t);
  e_neg ← tuple_exponent (map fneg (data t));
  Returned
    (mkTensor (shape t)
       (where_ (map fgt0 (data t)) (map fpow2 e_pos)
               (where_ (map flt0 (data t)) (map fneg (map fpow2 e_neg))
                       (data t)))).

(** The [isinstance(input, tuple)] branch, lines 429-432: three passes. *)
Definition forward_tuple (input : list tensor) : outcome (list tensor) :=
  let output := map clone input in
  let output := map (fun t => mkTensor (shape t) (range_clamp (data t))) output in
  mapM tuple_quantize output.

Definition forward (ctx : context) (input : pyvalue) : run pyvalue :=
  match input with
  | PTuple ts => mkRun [] (PTuple <$> forward_tuple ts)
  | PTensor t =>
      let r := forward_tensor t in
      mkRun (stdout r) (PTensor <$> result r)
  end.

(** Lines 474-477. *)
Definition backward (ctx : context) (grad_output : tensor) : tensor :=
  let grad_input := clone grad_output in
  grad_input.

End STEFunction_structured.

(** Lines 479-481: [apply] makes a fresh context and calls [forward]. *)
Definition activation_hook (sc : scope) (input output : pyvalue) : run pyvalue :=
  forward sc (mkContext []) output.

(** ** Hook registration (lines 483-487)

    A module is described by what the loop inspects: the classes it is an
    instance of (the names in the method resolution order of its class), its
    direct submodules, and the forward hooks it carries. *)

Inductive hook : Type :=
  | ActivationHook
  | OtherHook (label : string).

Record module : Type := mkModule {
  class_mro : list string;
  children : list string;
  forward_hooks : list hook
}.

Definition isinstance (m : module) (cls : string) : bool :=
  bool_decide (cls ∈ class_mro m).

Definition nn_Module : string := "torch.nn.modules.module.Module".
Definition nn_ModuleList : string := "torch.nn.modules.container.ModuleList".
Definition nn_LayerNorm : string := "torch.nn.modules.normalization.LayerNorm".
Definition nn_Dropout : string := "torch.nn.modules.dropout.Dropout".
Definition nn_ReLU : string := "torch.nn.modules.activation.ReLU".
Definition nn_Tanh : string := "torch.nn.modules.activation.Tanh".
Definition nn_GELU : string := "torch.nn.modules.activation.GELU".
Definition nn_Sigmoid : string := "torch.nn.modules.activation.Sigmoid".
Definition nn_Softmax : string := "torch.nn.modules.activation.Softmax".
Definition nn_LeakyReLU : string := "torch.nn.modules.activation.LeakyReLU".
Definition nn_PReLU : string := "torch.nn.modules.activation.PReLU".
Definition nn_Linear : string := "torch.nn.modules.linear.Linear".

Definition EXCLUDED_ACTIVATIONS : list string :=
  [nn_ReLU; nn_Tanh; nn_GELU; nn_Sigmoid; nn_Softmax; nn_LeakyReLU; nn_PReLU].

(** [needle in hay] on Python strings *)
Fixpoint str_in (needle hay : string) : bool :=
  String.prefix needle hay ||
  match hay with
  | EmptyString => false
  | String _ hay' => str_in needle hay'
  end.

(** The condition of line 486. *)
Definition selected (name : string) (m : module) : bool :=
  negb (isinstance m nn_ModuleList)
  && bool_decide (children m = [])
  && negb (str_in "intermediate_act_fn" name)
  && negb (isinstance m nn_LayerNorm)
  && negb (isinstance m nn_Dropout)
  && negb (existsb (isinstance m) EXCLUDED_ACTIVATIONS).

Definition register_forward_hook (m : module) (h : hook) : module :=
  mkModule (class_mro m) (children m) (forward_hooks m ++ [h]).

(** The loop over [model.named_modules()], whose result is the argument. *)
Definition register_hooks (named_modules : list (string * module))
  : list (string * module) :=
  map (fun nm => if selected nm.1 nm.2
                 then (nm.1, register_forward_hook nm.2 ActivationHook)
                 else nm)
      named_modules.

(** How many times a hook is attached to a module. *)
Definition hook_count (h : hook) (m : module) : nat :=
  length (List.filter (fun h' => match h, h' with
                                 | ActivationHook, ActivationHook => true
                                 | OtherHook a, OtherHook b => bool_decide (a = b)
                                 | _, _ => false
                                 end) (forward_hooks m)).

(** ** The instrumented program as a transition system

    After the constants are bound and the hooks registered, the only code of
    lines 388-487 that runs again is [forward], [backward] and
    [activation_hook]. The state is the enclosing scope and the modules. *)

Record state : Type := mkState {
  st_scope : scope;
  st_modules : list (string * module)
}.

Definition instrument (named_modules : list (string * module)) : state :=
  mkState train_scope (register_hooks named_modules).

Inductive operation : Type :=
  | CallForward (ctx : context) (input : pyvalue)
  | CallBackward (ctx : context) (grad_output : tensor)
  | CallHook (input output : pyvalue).

Inductive response : Type :=
  | Forwarded (r : run pyvalue)
  | Gradient (g : tensor).

(** The nested functions read the scope and assign to none of its names. *)
Definition step (st : state) (op : operation) : state * response :=
  match op with
  | CallForward ctx input => (st, Forwarded (forward (st_scope st) ctx input))
  | CallBackward ctx g => (st, Gradient (backward ctx g))
  | CallHook input output =>
      (st, Forwarded (activation_hook (st_scope st) input output))
  end.

Fixpoint exec (st : state) (ops : list operation) : state * list response :=
  match ops with
  | [] => (st, [])
  | op :: ops' =>
      let (st1, r) := step st op in
      let (st2, rs) := exec st1 ops' in
      (st2, r :: rs)
  end.

(** ** Notions of the specification *)

(** The precision tier of an element, in the order the specification lists
    the tests. *)
Inductive Tier : Type := Low | High | Highest.

Definition spec_tier (max_val log_x : fval) : Tier :=
  if fgt log_x (fsub_int max_val 3) then Highest
  else if fgt log_x (fsub_int max_val 5) then High
  else Low.

Definition scale_of (sc : scope) (t : Tier) : Z :=
  match t with
  | Low => scale_low_prec sc
  | High => scale_high_prec sc
  | Highest => scale_highest_prec sc
  end.

(** [torch.sign] *)
Definition Rsign (r : R) : R :=
  if Rltb 0 r then 1 else if Rltb r 0 then -1 else 0.

Definition fsign (x : fval) : fval :=
  match x with
  | NaN => NaN
  | PInf => Fin 1
  | NInf => Fin (-1)
  | Fin r => Fin (Rsign r)
  end.

(** ** One position of the whole-tensor expressions *)

(** The single-tensor branch at one position, given the maximum [max_val]
    of the tensor: what lines 436-453 compute for one element. *)
Definition log_abs (v : fval) : fval :=
  if fgt0 v then flog2 v else flog2 (fneg v).

Definition round_scalar (scale : Z) (l : fval) : fval :=
  fdiv_int (fround (fmul_int l scale)) scale.

Definition tier_exponent (sc : scope) (max_val l : fval) : fval :=
  if fgt l (fsub_int max_val 5)
  then if fgt l (fsub_int max_val 3)
       then round_scalar (scale_highest_prec sc) l
       else round_scalar (scale_high_prec sc) l
  else round_scalar (scale_low_prec sc) l.

Definition quantize_value (sc : scope) (max_val v : fval) : fval :=
  if fgt0 v then fpow2 (tier_exponent sc max_val (log_abs v))
  else fneg (fpow2 (tier_exponent sc max_val (log_abs v))).

Definition clamp_value (sc : scope) (x : fval) : fval :=
  if flt0 x then fneg (fclamp (threshold_down sc) (threshold_up sc) (fabs x))
  else fclamp (threshold_down sc) (threshold_up sc) (fabs x).

(** The element of the tuple branch: the positive elements are compared with
    the maximum of [log2 t], the negative ones with that of [log2 (-t)]. *)
Definition tuple_value (sc : scope) (max_pos max_neg x : fval) : fval :=
  if fgt0 x then fpow2 (tier_exponent sc max_pos (flog2 x))
  else if flt0 x then fneg (fpow2 (tier_exponent sc max_neg (flog2 (fneg x))))
  else x.

(** The logarithms the single-tensor branch takes the maximum of. *)
Definition nonzero_logs (output : list fval) : list fval :=
  map log_abs (List.filter fnonzero output).

(** ** The selection rule and the quantizer in the specification's words *)

(** The layers torch.nn lists as normalization layers and as dropout layers,
    by the class each family derives from. *)
Definition normalization_classes : list string :=
  [ nn_LayerNorm;
    "torch.nn.modules.normalization.GroupNorm";
    "torch.nn.modules.normalization.LocalResponseNorm";
    "torch.nn.modules.normalization.RMSNorm";
    "torch.nn.modules.batchnorm._NormBase" ]%string.

Definition is_normalization_module (m : module) : bool :=
  existsb (isinstance m) normalization_classes.

Definition is_dropout_module (m : module) : bool :=
  isinstance m "torch.nn.modules.dropout._DropoutNd".

(** The activation kinds the specification excludes, by the classes that
    implement them: the seven classes of torch.nn and the implementations of
    the Gaussian-error-linear activation in the transformers library, whose
    models this trainer loads. *)
Definition excluded_activation_kind_classes : list string :=
  EXCLUDED_ACTIVATIONS
  ++ [ "transformers.activations.NewGELUActivation";
       "transformers.activations.GELUActivation";
       "transformers.activations.FastGELUActivation";
       "transformers.activations.QuickGELUActivation" ]%string.

Definition is_excluded_activation_kind (m : module) : bool :=
  existsb (isinstance m) excluded_activation_kind_classes.

(** The selection rule as the specification words it. *)
Definition spec_selected (name : string) (m : module) : bool :=
  negb (isinstance m nn_ModuleList)
  && bool_decide (children m = [])
  && negb (str_in "intermediate_act_fn" name)
  && negb (is_normalization_module m)
  && negb (is_dropout_module m)
  && negb (is_excluded_activation_kind m).

(** One element through the tier selector and the log-domain quantizer as
    the specification describes them: the logarithm of the magnitude, rounded
    at the scale of its tier, exponentiated, the sign restored. *)
Definition spec_quantize (sc : scope) (max_val v : fval) : fval :=
  let log_x := flog2 (fabs v) in
  let scale := scale_of sc (spec_tier max_val log_x) in
  let magnitude := fpow2 (round_scalar scale log_x) in
  if fgt0 v then magnitude else fneg magnitude.

(** ** Inputs used as examples *)

Definition outlier_example : tensor :=
  mkTensor [1; 3]%nat [Fin 1; Fin 2; Fin 1024].

Definition zero_example : tensor := mkTensor [1; 1]%nat [Fin 0].

Definition vector_example : tensor := mkTensor [1]%nat [Fin 1].

Definition mixed_sign_example : tensor :=
  mkTensor [1; 2]%nat [Fin 3; Fin (- 1)].

Definition py_object : string := "builtins.object".

Definition linear_leaf : module :=
  mkModule [nn_Linear; nn_Module; py_object] [] [].

Definition layer_norm_leaf : module :=
  mkModule [nn_LayerNorm; nn_Module; py_object] [] [].

Definition dropout_leaf : module :=
  mkModule [nn_Dropout; "torch.nn.modules.dropout._DropoutNd"%string;
            nn_Module; py_object] [] [].

Definition batch_norm_leaf : module :=
  mkModule [ "torch.nn.modules.batchnorm.BatchNorm1d";
             "torch.nn.modules.batchnorm._BatchNorm";
             "torch.nn.modules.batchnorm._NormBase";
             nn_Module; py_object ]%string [] [].

Definition dropout1d_leaf : module :=
  mkModule [ "torch.nn.modules.dropout.Dropout1d";
             "torch.nn.modules.dropout._DropoutNd";
             nn_Module; py_object ]%string [] [].

Definition new_gelu_leaf : module :=
  mkModule [ "transformers.activations.NewGELUActivation";
             nn_Module; py_object ]%string [] [].

(** ** One member of the tuple branch *)

(** What lines 430-431 make of a member that has at least one element: the
    two maxima exist, and every element goes through [tuple_value]. *)
Definition tuple_member_output (sc : scope) (t : tensor) : tensor :=
  let d := range_clamp sc (data t) in
  mkTensor (shape t)
    (map (tuple_value sc (default NaN (torch_max (map flog2 d)))
                         (default NaN (torch_max (map flog2 (map fneg d)))))
         d).

(** ** The set-up code of [train] around the quantizer

    [train] is one long function; the parts modelled here are the ones that
    compute with the configuration alone.  [LLMTrainingParams] is declared in
    params.py; the record lists the fields these parts read.  The calls into
    transformers, datasets and the hub are not modelled: a constructor or an
    API call is taken to return. *)

Record LLMTrainingParams : Type := mkParams {
  repo_id : option string;
  username : option string;
  project_name : string;
  valid_split : option string;
  trainer : string;
  use_peft : bool;
  push_to_hub : bool;
  block_size : option Z;
  model_max_length : Z;
  logging_steps : Z;
  batch_size : Z;
  evaluation_strategy : string;
  text_column : string
}.

Definition with_repo_id (config : LLMTrainingParams) (v : option string)
  : LLMTrainingParams :=
  mkParams v (username config) (project_name config) (valid_split config)
    (trainer config) (use_peft config) (push_to_hub config)
    (block_size config) (model_max_length config) (logging_steps config)
    (batch_size config) (evaluation_strategy config) (text_column config).

Definition with_block_size (config : LLMTrainingParams) (v : option Z)
  : LLMTrainingParams :=
  mkParams (repo_id config) (username config) (project_name config)
    (valid_split config) (trainer config) (use_peft config)
    (push_to_hub config) v (model_max_length config) (logging_steps config)
    (batch_size config) (evaluation_strategy config) (text_column config).

Inductive log_record : Type :=
  | LogInfo (msg : string)
  | LogWarning (msg : string).

(** [str(n)] and [int(x)] of Python. *)
Definition py_str_int (n : Z) : string := NilZero.string_of_int (Z.to_int n).

Definition py_int (q : Q) : Z :=
  if Qle_bool 0 q then Qfloor q else Qceiling q.

(** Lines 46-47. *)
Definition set_repo_id (config : LLMTrainingParams) : LLMTrainingParams :=
  match repo_id config, username config with
  | None, Some u =>
      with_repo_id config (Some (u +:+ "/" +:+ project_name config)%string)
  | _, _ => config
  end.

(** The tokenizer, as far as lines 86-90 and 158-178 use it. *)
Record tokenizer : Type := mkTokenizer {
  tok_model_max_length : Z;
  pad_token : option string;
  eos_token : option string
}.

(** Lines 86-90. *)
Definition adjust_tokenizer (config : LLMTrainingParams) (tok : tokenizer)
  : tokenizer :=
  let tok :=
    if (2048 <? tok_model_max_length tok)%Z
    then mkTokenizer (model_max_length config) (pad_token tok) (eos_token tok)
    else tok in
  match pad_token tok with
  | None => mkTokenizer (tok_model_max_length tok) (eos_token tok) (eos_token tok)
  | Some _ => tok
  end.

(** Lines 158-178: the warnings logged and the configuration with its
    [block_size] set. *)
Definition resolve_block_size (config : LLMTrainingParams) (tok : tokenizer)
  : list log_record * LLMTrainingParams :=
  let config :=
    if decide (block_size config = Some (-1)%Z)
    then with_block_size config None else config in
  match block_size config with
  | None =>
      let block_size := tok_model_max_length tok in
      if (1024 <? block_size)%Z
      then ([LogWarning
               ("The chosen tokenizer supports a `model_max_length` that is longer than the default `block_size` value"
                +:+ " of 1024. If you would like to use a longer `block_size` up to `tokenizer.model_max_length` you can"
                +:+ " override this default with `--block_size xxx`.")%string],
            with_block_size config (Some 1024%Z))
      else ([], with_block_size config (Some block_size))
  | Some b =>
      let logs :=
        if (tok_model_max_length tok <? b)%Z
        then [LogWarning
                ("The block_size passed (" +:+ py_str_int b
                 +:+ ") is larger than the maximum length for the model"
                 +:+ "(" +:+ py_str_int (tok_model_max_length tok)
                 +:+ "). Using block_size="
                 +:+ py_str_int (tok_model_max_length tok) +:+ ".")%string]
        else [] in
      (logs, with_block_size config (Some (Z.min b (tok_model_max_length tok))))
  end.

(** Lines 493-502. The float expression [0.2 * len(data) / batch_size] is
    evaluated in exact rational arithmetic; dividing by a zero batch size
    raises. *)
Definition choose_logging_steps (config : LLMTrainingParams)
  (len_train_data len_valid_data : Z) : outcome Z :=
  if (logging_steps config =? -1)%Z then
    let len_data :=
      match valid_split config with
      | Some _ => len_valid_data
      | None => len_train_data
      end in
    if (batch_size config =? 0)%Z then Raised "ZeroDivisionError"
    else
      let logging_steps :=
        py_int (0.2 * inject_Z len_data / inject_Z (batch_size config))%Q in
      Returned (if (logging_steps =? 0)%Z then 1%Z else logging_steps)
  else Returned (logging_steps config).

(** Lines 504-562. Of the training arguments the record keeps the entries
    that are computed; the others are copied from the configuration. *)
Record TrainingArguments : Type := mkTrainingArguments {
  output_dir : string;
  per_device_train_batch_size : Z;
  per_device_eval_batch_size : Z;
  args_evaluation_strategy : string;
  args_logging_steps : Z;
  report_to : string;
  args_push_to_hub : bool;
  load_best_model_at_end : bool
}.

Inductive callback : Type :=
  | SavePeftModelCallback
  | LoadBestPeftModelCallback.

Inductive trainer_class : Type := Trainer | SFTTrainer.

Record trainer_object : Type := mkTrainer {
  trainer_cls : trainer_class;
  trainer_args : TrainingArguments;
  has_eval_dataset : bool;
  trainer_callbacks : list callback;
  has_peft_config : bool;
  dataset_text_field : option string;
  max_seq_length : option Z;
  packing : bool
}.

Definition create_trainer (config : LLMTrainingParams)
  (len_train_data len_valid_data : Z) : outcome trainer_object :=
  logging_steps ← choose_logging_steps config len_train_data len_valid_data;
  let has_valid := bool_decide (valid_split config <> None) in
  let args :=
    mkTrainingArguments
      (project_name config) (batch_size config) (batch_size config)
      (if has_valid then evaluation_strategy config else "no"%string)
      logging_steps "tensorboard" false
      (if has_valid then true else false) in
  let callbacks := [] in
  let callbacks :=
    if use_peft config
    then let callbacks := callbacks ++ [SavePeftModelCallback] in
         if has_valid then callbacks ++ [LoadBestPeftModelCallback]
         else callbacks
    else callbacks in
  if String.eqb (trainer config) "default" then
    Returned (mkTrainer Trainer args has_valid callbacks false None None false)
  else if String.eqb (trainer config) "sft" then
    Returned (mkTrainer SFTTrainer args has_valid []
                (use_peft config) (Some (text_column config))
                (block_size config) true)
  else
    Raised ("ValueError: trainer `" +:+ trainer config
            +:+ "` not supported")%string.

(** Lines 602-623. The files are the JSON objects of the project folder, by
    path; [json.load], [pop] and [json.dump] act on the one named
    training_params.json. *)
Inductive json_value : Type :=
  | JNull
  | JBool (b : bool)
  | JNum (n : Z)
  | JStr (s : string).

Inductive api_call : Type :=
  | CreateRepo (repo : option string) (private : bool)
  | UploadFolder (folder_path : string) (repo : option string)
      (files : gmap string (gmap string json_value))
  | PauseSpace (space_id : string)
  | PauseEndpoint.

Record session : Type := mkSession {
  files : gmap string (gmap string json_value);
  api_calls : list api_call;
  logs : list log_record;
  status : outcome unit
}.

Definition training_params_path (config : LLMTrainingParams) : string :=
  (project_name config +:+ "/training_params.json")%string.

Definition pause (config : LLMTrainingParams) (process_index : Z)
  (environ : gmap string string) (s : session) : session :=
  if (process_index =? 0)%Z then
    let s :=
      match environ !! "SPACE_ID"%string with
      | Some space_id =>
          mkSession (files s) (api_calls s ++ [PauseSpace space_id])
            (logs s ++ [LogInfo "Pausing space..."]) (status s)
      | None => s
      end in
    match environ !! "ENDPOINT_ID"%string with
    | Some _ =>
        mkSession (files s) (api_calls s ++ [PauseEndpoint])
          (logs s ++ [LogInfo "Pausing endpoint..."]) (status s)
    | None => s
    end
  else s.

Definition push_and_pause (config : LLMTrainingParams) (process_index : Z)
  (environ : gmap string string)
  (fs : gmap string (gmap string json_value)) : session :=
  let s := mkSession fs [] [] (Returned tt) in
  let s :=
    if push_to_hub config then
      if (process_index =? 0)%Z then
        let logs := [LogInfo "Pushing model to hub..."] in
        let scrubbed :=
          match fs !! training_params_path config with
          | Some training_params =>
              match training_params !! "token"%string with
              | Some _ =>
                  Returned (<[training_params_path config :=
                               delete "token"%string training_params]> fs)
              | None => Raised "KeyError: 'token'"
              end
          | None => Returned fs
          end in
        match scrubbed with
        | Returned fs' =>
            mkSession fs'
              [CreateRepo (repo_id config) true;
               UploadFolder (project_name config) (repo_id config) fs']
              logs (Returned tt)
        | Raised e => mkSession fs [] logs (Raised e)
        end
      else s
    else s in
  match status s with
  | Returned _ => pause config process_index environ s
  | Raised _ => s
  end.

(** A configuration used as an example, and the trainer built from it. *)
Definition example_params : LLMTrainingParams :=
  mkParams None (Some "user"%string) "project" (Some "validation"%string)
    "default" true true None 1024%Z (- 1)%Z 4%Z "epoch" "text".

Definition example_trainer : trainer_object :=
  mkTrainer Trainer
    (mkTrainingArguments "project" 4%Z 4%Z "epoch" 5%Z "tensorboard" false true)
    true [SavePeftModelCallback; LoadBestPeftModelCallback]
    false None None false.

Definition example_files : gmap string (gmap string json_value) :=
  {[ "project/training_params.json"%string :=
       {[ "token"%string := JStr "hf_secret"; "lr"%string := JNum 3 ]} ]}.



Definition example_files_without_token
  : gmap string (gmap string json_value) :=
  {[ "project/training_params.json"%string := {[ "lr"%string := JNum 3 ]} ]}.

(** ** Real-number facts *)

Lemma Rltb_true (a b : R) : Rltb a b = true <-> a < b.
Proof. unfold Rltb. destruct (Rlt_dec a b); split; intros; try easy. Qed.

Lemma Rltb_false (a b : R) : Rltb a b = false <-> b <= a.
Proof.
  unfold Rltb. destruct (Rlt_dec a b); split; intros; try easy; lra.
Qed.

Lemma Rnonzerob_true (a : R) : Rnonzerob a = true <-> a <> 0.
Proof. unfold Rnonzerob. destruct (Req_dec_T a 0); split; intros; easy. Qed.

Lemma Rnonzerob_false (a : R) : Rnonzerob a = false <-> a = 0.
Proof. unfold Rnonzerob. destruct (Req_dec_T a 0); split; intros; easy. Qed.

Lemma ln2_pos : 0 < ln 2.
Proof. pose proof ln_lt_2. lra. Qed.

Lemma log2R_pow2R (y : R) : log2R (pow2R y) = y.
Proof.
  unfold log2R, pow2R, Rpower. rewrite ln_exp. field.
  pose proof ln2_pos. lra.
Qed.

Lemma pow2R_log2R (x : R) : 0 < x -> pow2R (log2R x) = x.
Proof.
  intros Hx. unfold log2R, pow2R, Rpower.
  replace (ln x / ln 2 * ln 2) with (ln x).
  - now apply exp_ln.
  - field. pose proof ln2_pos. lra.
Qed.

Lemma pow2R_pos (y : R) : 0 < pow2R y.
Proof. unfold pow2R, Rpower. apply exp_pos. Qed.

Lemma pow2R_le (x y : R) : x <= y -> pow2R x <= pow2R y.
Proof. intros H. unfold pow2R. apply Rle_Rpower; lra. Qed.

Lemma pow2R_inj (x y : R) : pow2R x = pow2R y -> x = y.
Proof.
  intros H. rewrite <- (log2R_pow2R x), <- (log2R_pow2R y). now rewrite H.
Qed.

Lemma log2R_le (x y : R) : 0 < x -> x <= y -> log2R x <= log2R y.
Proof.
  intros Hx [Hlt | ->]; [| lra].
  unfold log2R. pose proof ln2_pos as H2.
  pose proof (ln_increasing x y Hx Hlt) as Hln.
  apply Rmult_le_compat_r; [| lra].
  left. now apply Rinv_0_lt_compat.
Qed.

Lemma log2R_lt (x y : R) : 0 < x -> x < y -> log2R x < log2R y.
Proof.
  intros Hx Hlt. unfold log2R. pose proof ln2_pos as H2.
  pose proof (ln_increasing x y Hx Hlt) as Hln.
  apply Rmult_lt_compat_r; [| lra].
  now apply Rinv_0_lt_compat.
Qed.

Lemma log2R_pow (n : nat) : log2R (2 ^ n) = INR n.
Proof.
  unfold log2R. rewrite ln_pow by lra. field.
  pose proof ln2_pos. lra.
Qed.

Lemma log2R_inv_pow (n : nat) : log2R (/ 2 ^ n) = - INR n.
Proof.
  unfold log2R. rewrite ln_Rinv by (apply pow_lt; lra).
  rewrite ln_pow by lra. field. pose proof ln2_pos. lra.
Qed.

Lemma pow2R_INR (n : nat) : pow2R (INR n) = 2 ^ n.
Proof. unfold pow2R. apply Rpower_pow. lra. Qed.

Lemma pow2R_opp_INR (n : nat) : pow2R (- INR n) = / 2 ^ n.
Proof. unfold pow2R. rewrite Rpower_Ropp. f_equal. apply Rpower_pow. lra. Qed.

(** A bound [2^p < x^q] on integers of the reals locates [log2 x]. *)
Lemma log2R_lower (x : R) (p q : nat) :
  0 < x -> 2 ^ p < x ^ q -> INR p < INR q * log2R x.
Proof.
  intros Hx H.
  assert (Hl : log2R (2 ^ p) < log2R (x ^ q)).
  { apply log2R_lt; [apply pow_lt; lra | exact H]. }
  rewrite log2R_pow in Hl. unfold log2R in *. rewrite ln_pow in Hl by exact Hx.
  lra.
Qed.

Lemma log2R_upper (x : R) (p q : nat) :
  0 < x -> x ^ q < 2 ^ p -> INR q * log2R x < INR p.
Proof.
  intros Hx H.
  assert (Hl : log2R (x ^ q) < log2R (2 ^ p)).
  { apply log2R_lt; [now apply pow_lt | exact H]. }
  rewrite log2R_pow in Hl. unfold log2R in *. rewrite ln_pow in Hl by exact Hx.
  lra.
Qed.

(** ** Rounding *)

Lemma round_half_even_near (x : R) (n : Z) :
  IZR n - 1 / 2 < x < IZR n + 1 / 2 -> round_half_even x = n.
Proof.
  intros [Hlo Hhi]. unfold round_half_even.
  pose proof (Zfloor_bound x) as [Hf1 Hf2].
  destruct (Rltb (x - IZR (Zfloor x)) (1 / 2)) eqn:E1.
  - apply Rltb_true in E1.
    assert (H1 : IZR (Zfloor x) < IZR (n + 1)) by (rewrite plus_IZR; lra).
    assert (H2 : IZR (n - 1) < IZR (Zfloor x)) by (rewrite minus_IZR; lra).
    apply lt_IZR in H1, H2. lia.
  - apply Rltb_false in E1.
    assert (H1 : IZR (Zfloor x) < IZR n) by lra.
    assert (H2 : IZR (n - 2) < IZR (Zfloor x)) by (rewrite minus_IZR; lra).
    apply lt_IZR in H1, H2.
    assert (Hn : Zfloor x = (n - 1)%Z) by lia.
    rewrite Hn in *. rewrite minus_IZR in *.
    destruct (Rltb (1 / 2) (x - (IZR n - 1))) eqn:E2.
    + lia.
    + apply Rltb_false in E2. lra.
Qed.

Lemma round_half_even_IZR (n : Z) : round_half_even (IZR n) = n.
Proof. apply round_half_even_near. lra. Qed.

Lemma round_half_even_ge (x : R) (k : Z) :
  IZR k <= x -> (k <= round_half_even x)%Z.
Proof.
  intros H. pose proof (Zfloor_lub k x H) as Hk. unfold round_half_even.
  destruct (Rltb _ _); [lia |].
  destruct (Rltb _ _); [lia |].
  destruct (Z.even _); lia.
Qed.

Lemma round_half_even_le (x : R) (k : Z) :
  x <= IZR k -> (round_half_even x <= k)%Z.
Proof.
  intros H. pose proof (Zfloor_bound x) as [Hf1 Hf2].
  assert (Hle : (Zfloor x <= k)%Z) by (apply le_IZR; lra).
  destruct (Z.eq_dec (Zfloor x) k) as [Heq | Hne].
  - unfold round_half_even. rewrite Heq in *.
    assert (E : Rltb (x - IZR k) (1 / 2) = true) by (apply Rltb_true; lra).
    rewrite E. lia.
  - unfold round_half_even.
    destruct (Rltb _ _); [lia |].
    destruct (Rltb _ _); [lia |].
    destruct (Z.even _); lia.
Qed.

(** ** Whole-tensor expressions, element by element *)

Lemma where_map {A : Type} (p : A -> bool) (f g : A -> fval) (l : list A) :
  where_ (map p l) (map f l) (map g l)
  = map (fun x => if p x then f x else g x) l.
Proof. induction l as [| x l IH]; simpl; [reflexivity | now rewrite IH]. Qed.

Lemma round_to_scale_map (s : Z) (l : list fval) :
  round_to_scale s l = map (round_scalar s) l.
Proof. unfold round_to_scale. now rewrite !map_map. Qed.

Lemma range_clamp_map (sc : scope) (l : list fval) :
  range_clamp sc l = map (clamp_value sc) l.
Proof.
  unfold range_clamp. rewrite !map_map.
  apply (where_map flt0
           (fun x => fneg (fclamp (threshold_down sc) (threshold_up sc) (fabs x)))
           (fun x => fclamp (threshold_down sc) (threshold_up sc) (fabs x))).
Qed.

Lemma log_x_map (l : list fval) :
  where_ (map fgt0 l) (map flog2 l) (map flog2 (map fneg l)) = map log_abs l.
Proof.
  rewrite map_map.
  apply (where_map fgt0 flog2 (fun x => flog2 (fneg x))).
Qed.

Lemma quant_exponent_map (sc : scope) (max_val : fval) (l : list fval) :
  where_ (map (fun x => fgt x (fsub_int max_val 5)) l)
         (where_ (map (fun x => fgt x (fsub_int max_val 3)) l)
                 (round_to_scale (scale_highest_prec sc) l)
                 (round_to_scale (scale_high_prec sc) l))
         (round_to_scale (scale_low_prec sc) l)
  = map (tier_exponent sc max_val) l.
Proof.
  rewrite !round_to_scale_map.
  rewrite (where_map (fun x => fgt x (fsub_int max_val 3))).
  now rewrite (where_map (fun x => fgt x (fsub_int max_val 5))).
Qed.

Lemma index_get_nonzero_from (pre l : list fval) :
  index_get (pre ++ l) (nonzero_from (length pre) l)
  = Returned (List.filter fnonzero l).
Proof.
  revert pre. induction l as [| x l IH]; intros pre; [reflexivity |].
  assert (Hstep : index_get (pre ++ x :: l) (nonzero_from (S (length pre)) l)
                  = Returned (List.filter fnonzero l)).
  { specialize (IH (pre ++ [x])).
    rewrite <- app_assoc, length_app in IH. simpl in IH.
    now rewrite Nat.add_1_r in IH. }
  simpl. destruct (fnonzero x); [| exact Hstep].
  unfold index_get in *. simpl.
  rewrite list_lookup_middle by reflexivity. simpl.
  now rewrite Hstep.
Qed.

Lemma index_put_nonzero_from (f : fval -> fval) (pre l : list fval) :
  index_put (pre ++ l) (nonzero_from (length pre) l)
            (map f (List.filter fnonzero l))
  = Returned (pre ++ map (fun x => if fnonzero x then f x else x) l).
Proof.
  revert pre. induction l as [| x l IH]; intros pre; [reflexivity |].
  simpl. destruct (fnonzero x) eqn:Hx.
  - simpl. rewrite decide_True by (rewrite length_app; simpl; lia).
    rewrite insert_app_r_alt by lia. rewrite Nat.sub_diag. simpl.
    specialize (IH (pre ++ [f x])).
    rewrite <- !app_assoc, length_app in IH. simpl in IH.
    now rewrite Nat.add_1_r in IH.
  - specialize (IH (pre ++ [x])).
    rewrite <- !app_assoc, length_app in IH. simpl in IH.
    now rewrite Nat.add_1_r in IH.
Qed.

Lemma filter_nil_map_id (f : fval -> fval) (l : list fval) :
  List.filter fnonzero l = [] ->
  map (fun x => if fnonzero x then f x else x) l = l.
Proof.
  induction l as [| x l IH]; simpl; [reflexivity |].
  destruct (fnonzero x); [discriminate |]. intros H. now rewrite IH.
Qed.

(** The single-tensor quantizer never raises, leaves the zero elements and
    maps every other element with [quantize_value] at the tensor's maximum. *)
Lemma tier_quantize_elementwise (sc : scope) (output : list fval) :
  tier_quantize sc output
  = Returned
      match torch_max (nonzero_logs output) with
      | Some max_val =>
          map (fun x => if fnonzero x then quantize_value sc max_val x else x)
              output
      | None => output
      end.
Proof.
  unfold tier_quantize, nonzero, nonzero_logs.
  pose proof (index_get_nonzero_from [] output) as Hget. simpl in Hget.
  rewrite Hget. simpl.
  destruct (decide _) as [Hlen | Hlen].
  - rewrite log_x_map.
    destruct (torch_max (map log_abs (List.filter fnonzero output))) as [M |] eqn:HM.
    + simpl. rewrite quant_exponent_map, !map_map.
      rewrite (where_map fgt0
                 (fun x => fpow2 (tier_exponent sc M (log_abs x)))
                 (fun x => fneg (fpow2 (tier_exponent sc M (log_abs x))))).
      apply (index_put_nonzero_from (quantize_value sc M) [] output).
    + destruct (List.filter fnonzero output); simpl in *; [lia | discriminate].
  - destruct (List.filter fnonzero output); simpl in *; [reflexivity | lia].
Qed.

Lemma lookup_map {A B : Type} (f : A -> B) (l : list A) (i : nat) :
  map f l !! i = f <$> (l !! i).
Proof. change (map f l) with (f <$> l). apply list_lookup_fmap. Qed.

Lemma forward_tensor_ranked (sc : scope) (t : tensor) :
  (length (shape t) = 2 \/ length (shape t) = 3)%nat ->
  forward_tensor sc t
  = mkRun []
      (Returned
         (mkTensor (shape t)
            match torch_max (nonzero_logs (map (clamp_value sc) (data t))) with
            | Some max_val =>
                map (fun x => if fnonzero x then quantize_value sc max_val x
                              else x)
                    (map (clamp_value sc) (data t))
            | None => map (clamp_value sc) (data t)
            end)).
Proof.
  intros Hrank. unfold forward_tensor, clone. simpl.
  rewrite range_clamp_map, tier_quantize_elementwise.
  destruct (decide (length (shape t) = 3%nat)); [reflexivity |].
  destruct (decide (length (shape t) = 2%nat)); [reflexivity | lia].
Qed.

Lemma forward_tensor_other_rank (sc : scope) (t : tensor) :
  length (shape t) <> 2%nat -> length (shape t) <> 3%nat ->
  forward_tensor sc t
  = mkRun ["Out of shape"%string]
      (Returned (mkTensor (shape t) (map (clamp_value sc) (data t)))).
Proof.
  intros H2 H3. unfold forward_tensor, clone. simpl.
  rewrite range_clamp_map.
  destruct (decide (length (shape t) = 3%nat)); [lia |].
  destruct (decide (length (shape t) = 2%nat)); [lia | reflexivity].
Qed.

(** ** The tier of an element *)

Lemma fgt_sub_3_5 (l max_val : fval) :
  fgt l (fsub_int max_val 3) = true -> fgt l (fsub_int max_val 5) = true.
Proof.
  destruct l, max_val; simpl; try easy.
  rewrite !Rltb_true. lra.
Qed.

Lemma tier_exponent_spec (sc : scope) (max_val l : fval) :
  tier_exponent sc max_val l
  = round_scalar (scale_of sc (spec_tier max_val l)) l.
Proof.
  unfold tier_exponent, spec_tier.
  destruct (fgt l (fsub_int max_val 3)) eqn:E3.
  - now rewrite (fgt_sub_3_5 _ _ E3).
  - now destruct (fgt l (fsub_int max_val 5)).
Qed.

Lemma log_abs_spec (v : fval) : log_abs v = flog2 (fabs v).
Proof.
  unfold log_abs. destruct v as [| | | r]; simpl; try reflexivity.
  destruct (Rltb 0 r) eqn:E.
  - pose proof (proj1 (Rltb_true _ _) E) as Hr.
    rewrite Rabs_right by lra. now rewrite E.
  - pose proof (proj1 (Rltb_false _ _) E) as Hr.
    now rewrite Rabs_left1 by lra.
Qed.

Lemma quantize_value_spec (sc : scope) (max_val v : fval) :
  quantize_value sc max_val v = spec_quantize sc max_val v.
Proof.
  unfold quantize_value, spec_quantize.
  now rewrite tier_exponent_spec, log_abs_spec.
Qed.


(** ** The constants *)

Lemma train_scope_values :
  num_bit_mantissa train_scope = 5%Z
  /\ threshold_mantissa train_scope = 16%Z
  /\ threshold_up train_scope = 65536
  /\ threshold_down train_scope = / 65536
  /\ num_frac_low_prec train_scope = 2%Z
  /\ num_frac_high_prec train_scope = 4%Z
  /\ num_frac_highest_prec train_scope = 6%Z
  /\ scale_low_prec train_scope = 4%Z
  /\ scale_high_prec train_scope = 16%Z
  /\ scale_highest_prec train_scope = 64%Z.
Proof. repeat split; reflexivity. Qed.

Lemma scale_of_train_scope_pos (t : Tier) : (0 < scale_of train_scope t)%Z.
Proof. destruct t; reflexivity. Qed.

Lemma pow2R_16 : pow2R 16 = 65536.
Proof.
  replace 16 with (INR 16) by (simpl; lra).
  rewrite pow2R_INR. simpl. lra.
Qed.

Lemma pow2R_m16 : pow2R (- 16) = / 65536.
Proof.
  replace (- 16) with (- INR 16) by (simpl; lra).
  rewrite pow2R_opp_INR. f_equal. simpl. lra.
Qed.

Lemma log2R_range (a : R) :
  / 65536 <= a <= 65536 -> - 16 <= log2R a <= 16.
Proof.
  intros [Hlo Hhi].
  assert (Hpos : 0 < a) by lra.
  pose proof (log2R_le _ _ Hpos Hhi) as H1.
  assert (Hd : 0 < / 65536) by lra.
  pose proof (log2R_le _ _ Hd Hlo) as H2.
  rewrite <- pow2R_16 in H1. rewrite <- pow2R_m16 in H2.
  rewrite log2R_pow2R in H1, H2. lra.
Qed.

(** Rounding at a positive integer scale keeps an exponent in [-16, 16]. *)
Lemma round_scaled_bounds (l : R) (s : Z) :
  (0 < s)%Z -> - 16 <= l <= 16 ->
  - 16 <= IZR (round_half_even (l * IZR s)) / IZR s <= 16.
Proof.
  intros Hs [Hlo Hhi].
  assert (Hsr : 0 < IZR s) by now apply IZR_lt.
  assert (H1 : IZR (- 16 * s) <= l * IZR s) by (rewrite mult_IZR; nra).
  assert (H2 : l * IZR s <= IZR (16 * s)) by (rewrite mult_IZR; nra).
  apply round_half_even_ge in H1. apply round_half_even_le in H2.
  apply IZR_le in H1, H2. rewrite mult_IZR in H1, H2.
  split.
  - apply (Rmult_le_reg_r (IZR s)); [exact Hsr |].
    unfold Rdiv. rewrite Rmult_assoc, Rinv_l by lra. lra.
  - apply (Rmult_le_reg_r (IZR s)); [exact Hsr |].
    unfold Rdiv. rewrite Rmult_assoc, Rinv_l by lra. lra.
Qed.


(** ** One element through the clamp and the quantizer *)

Lemma clamp_value_number (x : fval) :
  x <> NaN ->
  exists c, clamp_value train_scope x = Fin c
            /\ / 65536 <= Rabs c <= 65536
            /\ (if flt0 x then c < 0 else 0 < c).
Proof.
  intros Hx. unfold clamp_value.
  change (threshold_down train_scope) with (/ 65536).
  change (threshold_up train_scope) with 65536.
  destruct x as [| | | r]; [easy | | |]; simpl.
  - exists 65536. rewrite Rabs_right by lra. repeat split; lra.
  - exists (- 65536). rewrite Rabs_left by lra. repeat split; lra.
  - set (c0 := Rmin (Rmax (Rabs r) (/ 65536)) 65536).
    assert (Hc0 : / 65536 <= c0 <= 65536).
    { unfold c0, Rmin, Rmax.
      destruct (Rle_dec (Rabs r) (/ 65536)), (Rle_dec _ 65536); lra. }
    destruct (Rltb r 0).
    + exists (- c0). rewrite Rabs_left by lra. repeat split; lra.
    + exists c0. rewrite Rabs_right by lra. repeat split; lra.
Qed.

Lemma clamp_value_nonzero (x : fval) : fnonzero (clamp_value train_scope x) = true.
Proof.
  assert (Hcase : x = NaN \/ x <> NaN) by (destruct x; auto; right; discriminate).
  destruct Hcase as [-> | Hx]; [reflexivity |].
  destruct (clamp_value_number x Hx) as (c & -> & Hc & _).
  simpl. apply Rnonzerob_true. intros ->. rewrite Rabs_R0 in Hc. lra.
Qed.

Lemma quantize_value_fin (sc : scope) (max_val : fval) (c : R) :
  c <> 0 ->
  let l := log2R (Rabs c) in
  let s := scale_of sc (spec_tier max_val (Fin l)) in
  let e := IZR (round_half_even (l * IZR s)) / IZR s in
  flog2 (fabs (Fin c)) = Fin l
  /\ quantize_value sc max_val (Fin c)
     = Fin (if Rltb 0 c then pow2R e else - pow2R e).
Proof.
  intros Hc l s e.
  assert (Hl : flog2 (fabs (Fin c)) = Fin l).
  { simpl. assert (E : Rltb 0 (Rabs c) = true).
    { apply Rltb_true. now apply Rabs_pos_lt. }
    now rewrite E. }
  split; [exact Hl |].
  rewrite quantize_value_spec. unfold spec_quantize.
  rewrite Hl. simpl. fold l. fold s. fold e.
  now destruct (Rltb 0 c).
Qed.

Lemma quantized_element (max_val x : fval) :
  x <> NaN ->
  exists (c : R) (k : Z),
    clamp_value train_scope x = Fin c
    /\ / 65536 <= Rabs c <= 65536
    /\ (if flt0 x then c < 0 else 0 < c)
    /\ let s := scale_of train_scope
                  (spec_tier max_val (flog2 (fabs (Fin c)))) in
       let e := IZR k / IZR s in
       - 16 <= e <= 16
       /\ quantize_value train_scope max_val (Fin c)
          = Fin (if Rltb 0 c then pow2R e else - pow2R e).
Proof.
  intros Hx. destruct (clamp_value_number x Hx) as (c & Hc & Hrange & Hsign).
  assert (Hc0 : c <> 0) by (intros ->; rewrite Rabs_R0 in Hrange; lra).
  destruct (quantize_value_fin train_scope max_val c Hc0) as [Hl Hq].
  exists c.
  exists (round_half_even
            (log2R (Rabs c)
             * IZR (scale_of train_scope
                      (spec_tier max_val (Fin (log2R (Rabs c))))))).
  rewrite Hl. repeat split; try assumption; try tauto.
  - apply round_scaled_bounds;
      [apply scale_of_train_scope_pos | now apply log2R_range].
  - apply round_scaled_bounds;
      [apply scale_of_train_scope_pos | now apply log2R_range].
Qed.

Lemma torch_max_nonzero_logs (l : list fval) (i : nat) (v : fval) :
  l !! i = Some v -> fnonzero v = true ->
  exists max_val, torch_max (nonzero_logs l) = Some max_val.
Proof.
  intros Hi Hv.
  assert (Hne : List.filter fnonzero l <> []).
  { revert i Hi. induction l as [| y l IH]; intros i Hi; [easy |].
    simpl. destruct i as [| i]; simpl in Hi.
    - injection Hi as ->. now rewrite Hv.
    - destruct (fnonzero y); [easy | now apply (IH i)]. }
  unfold nonzero_logs. destruct (List.filter fnonzero l); [easy |].
  simpl. eauto.
Qed.

(** Every element of every tensor, followed through [forward_tensor]. *)
Lemma forward_tensor_element (t : tensor) (i : nat) (x : fval) :
  data t !! i = Some x ->
  exists out,
    result (forward_tensor train_scope t) = Returned out
    /\ shape out = shape t
    /\ (((length (shape t) = 2 \/ length (shape t) = 3)%nat
         /\ exists max_val,
              torch_max (nonzero_logs (map (clamp_value train_scope) (data t)))
              = Some max_val
              /\ data out !! i
                 = Some (quantize_value train_scope max_val
                           (clamp_value train_scope x)))
        \/ ((length (shape t) <> 2 /\ length (shape t) <> 3)%nat
            /\ data out !! i = Some (clamp_value train_scope x))).
Proof.
  intros Hi.
  assert (Hci : map (clamp_value train_scope) (data t) !! i
                = Some (clamp_value train_scope x)).
  { now rewrite lookup_map, Hi. }
  destruct (decide (length (shape t) = 2 \/ length (shape t) = 3)%nat)
    as [Hrank | Hrank].
  - rewrite (forward_tensor_ranked _ _ Hrank). simpl.
    destruct (torch_max_nonzero_logs _ _ _ Hci (clamp_value_nonzero x))
      as [M HM].
    rewrite HM. eexists. split; [reflexivity |]. split; [reflexivity |].
    left. split; [exact Hrank |]. exists M. split; [reflexivity |].
    simpl. rewrite lookup_map, Hci. simpl.
    now rewrite clamp_value_nonzero.
  - rewrite forward_tensor_other_rank by lia. simpl.
    eexists. split; [reflexivity |]. split; [reflexivity |].
    right. split; [lia | exact Hci].
Qed.

(** ** Range, sign and magnitude of the output *)



Lemma fsign_clamped (x : fval) (c : R) :
  x <> NaN -> fnonzero x = true ->
  (if flt0 x then c < 0 else 0 < c) ->
  fsign (Fin c) = fsign x /\ fsign (Fin (- c)) = fsign (fneg x).
Proof.
  intros Hx Hnz Hc. unfold fsign, Rsign.
  destruct x as [| | | r]; [easy | | |]; simpl in *.
  - assert (E1 : Rltb 0 c = true) by now apply Rltb_true.
    assert (E2 : Rltb 0 (- c) = false) by (apply Rltb_false; lra).
    assert (E3 : Rltb (- c) 0 = true) by (apply Rltb_true; lra).
    now rewrite E1, E2, E3.
  - assert (E1 : Rltb 0 c = false) by (apply Rltb_false; lra).
    assert (E2 : Rltb c 0 = true) by now apply Rltb_true.
    assert (E3 : Rltb 0 (- c) = true) by (apply Rltb_true; lra).
    now rewrite E1, E2, E3.
  - apply Rnonzerob_true in Hnz.
    destruct (Rltb r 0) eqn:Er;
      [apply Rltb_true in Er | apply Rltb_false in Er].
    + assert (E1 : Rltb 0 c = false) by (apply Rltb_false; lra).
      assert (E2 : Rltb c 0 = true) by now apply Rltb_true.
      assert (E3 : Rltb 0 r = false) by (apply Rltb_false; lra).
      assert (E4 : Rltb 0 (- c) = true) by (apply Rltb_true; lra).
      assert (E5 : Rltb 0 (- r) = true) by (apply Rltb_true; lra).
      now rewrite E1, E2, E3, E4, E5.
    + assert (E1 : Rltb 0 c = true) by now apply Rltb_true.
      assert (E3 : Rltb 0 r = true) by (apply Rltb_true; lra).
      assert (E4 : Rltb 0 (- c) = false) by (apply Rltb_false; lra).
      assert (E5 : Rltb 0 (- r) = false) by (apply Rltb_false; lra).
      assert (E6 : Rltb (- c) 0 = true) by (apply Rltb_true; lra).
      assert (E7 : Rltb (- r) 0 = true) by (apply Rltb_true; lra).
      now rewrite E1, E3, E4, E5, E6, E7.
Qed.

(** C5. For every nonzero element [x] that is a number, the element of the
    clamped tensor and the element of the output of the single-tensor
    [forward] at the same position have the sign of [x]. *)
Theorem sign_preserved (t : tensor) (i : nat) (x : fval) :
  data t !! i = Some x -> x <> NaN -> fnonzero x = true ->
  (exists c,
     range_clamp train_scope (data t) !! i = Some c /\ fsign c = fsign x)
  /\ (exists out y,
        result (forward_tensor train_scope t) = Returned out
        /\ data out !! i = Some y
        /\ fsign y = fsign x).
Proof.
  intros Hi Hx Hnz.
  destruct (forward_tensor_element t i x Hi) as (out & Hout & _ & Hcases).
  destruct (clamp_value_number x Hx) as (c & Hc & Hrange & Hsign).
  destruct (fsign_clamped x c Hx Hnz Hsign) as [Hs _].
  split.
  - exists (Fin c). split; [| exact Hs].
    now rewrite range_clamp_map, lookup_map, Hi, <- Hc.
  - destruct Hcases as [(_ & M & _ & Hq) | (_ & Hq)].
    + destruct (quantized_element M x Hx) as (c' & k & Hc' & _ & _ & _ & Hv).
      rewrite Hc in Hc'. injection Hc' as <-.
      rewrite Hc, Hv in Hq. eexists. eexists.
      split; [exact Hout |]. split; [exact Hq |].
      rewrite <- Hs. unfold fsign, Rsign.
      pose proof (pow2R_pos
        (IZR k / IZR (scale_of train_scope
                        (spec_tier M (flog2 (fabs (Fin c))))))) as Hp.
      destruct (Rltb 0 c) eqn:E.
      * assert (E1 : Rltb 0 (pow2R (IZR k / IZR (scale_of train_scope
                        (spec_tier M (flog2 (fabs (Fin c))))))) = true)
          by now apply Rltb_true.
        now rewrite E1.
      * assert (E1 : Rltb 0 (- pow2R (IZR k / IZR (scale_of train_scope
                        (spec_tier M (flog2 (fabs (Fin c))))))) = false)
          by (apply Rltb_false; lra).
        assert (E2 : Rltb (- pow2R (IZR k / IZR (scale_of train_scope
                        (spec_tier M (flog2 (fabs (Fin c))))))) 0 = true)
          by (apply Rltb_true; lra).
        assert (E3 : Rltb c 0 = true).
        { apply Rltb_true. apply Rltb_false in E.
          destruct (flt0 x); [lra |]. lra. }
        now rewrite E1, E2, E3.
    + rewrite Hc in Hq. exists out, (Fin c). auto.
Qed.

Lemma sign_preserved_witness :
  (exists c,
     range_clamp train_scope [Fin 3; Fin (- 1)] !! 1%nat = Some c
     /\ fsign c = fsign (Fin (- 1)))
  /\ (exists out y,
        result (forward_tensor train_scope (mkTensor [1; 2]%nat [Fin 3; Fin (- 1)]))
        = Returned out
        /\ data out !! 1%nat = Some y
        /\ fsign y = fsign (Fin (- 1))).
Proof.
  apply (sign_preserved (mkTensor [1; 2]%nat [Fin 3; Fin (- 1)]) 1 (Fin (- 1))).
  - reflexivity.
  - discriminate.
  - apply Rnonzerob_true. lra.
Defined.



(** C7. [backward] returns the upstream gradient as it is, whatever the
    context: nothing saved by [forward], no tier, bound or magnitude enters
    the result, which depends on the gradient alone. *)
Theorem backward_identity (ctx ctx' : context) (g : tensor) :
  backward ctx g = g /\ backward ctx' g = backward ctx g.
Proof. unfold backward, clone. now destruct g. Qed.

(** ** Evaluation on concrete numbers *)

Ltac decide_Rltb :=
  repeat match goal with
         | |- context [Rltb ?a ?b] =>
             first [ rewrite (proj2 (Rltb_true a b)) by lra
                   | rewrite (proj2 (Rltb_false a b)) by lra ]
         | |- context [Rnonzerob ?a] =>
             first [ rewrite (proj2 (Rnonzerob_true a)) by lra
                   | rewrite (proj2 (Rnonzerob_false a)) by lra ]
         end.

Ltac eval_cmp := repeat (progress (simpl; decide_Rltb)).

Lemma clamp_value_in_range (r : R) :
  / 65536 <= Rabs r <= 65536 -> clamp_value train_scope (Fin r) = Fin r.
Proof.
  intros Hr. unfold clamp_value.
  change (threshold_down train_scope) with (/ 65536).
  change (threshold_up train_scope) with 65536.
  simpl. rewrite Rmax_left, Rmin_left by (try rewrite Rmax_left; lra).
  destruct (Rltb r 0) eqn:E;
    [apply Rltb_true in E | apply Rltb_false in E]; f_equal.
  - rewrite Rabs_left by lra. lra.
  - apply Rabs_right. lra.
Qed.

(** A magnitude whose logarithm is an integer is reproduced at every tier. *)
Lemma spec_quantize_exact (max_val : fval) (c : R) (n : Z) :
  c <> 0 -> log2R (Rabs c) = IZR n ->
  spec_quantize train_scope max_val (Fin c) = Fin c.
Proof.
  intros Hc Hn. unfold spec_quantize.
  assert (Habs : 0 < Rabs c) by now apply Rabs_pos_lt.
  assert (Hl : flog2 (fabs (Fin c)) = Fin (IZR n)).
  { simpl. rewrite (proj2 (Rltb_true 0 (Rabs c))) by exact Habs.
    now rewrite Hn. }
  rewrite Hl.
  set (s := scale_of train_scope (spec_tier max_val (Fin (IZR n)))).
  assert (Hs : 0 < IZR s) by (apply IZR_lt, scale_of_train_scope_pos).
  assert (He : round_scalar s (Fin (IZR n)) = Fin (IZR n)).
  { unfold round_scalar. simpl. rewrite <- mult_IZR, round_half_even_IZR.
    rewrite mult_IZR. f_equal. field. lra. }
  rewrite He. simpl. rewrite <- Hn, pow2R_log2R by exact Habs.
  destruct (Rltb 0 c) eqn:E;
    [apply Rltb_true in E | apply Rltb_false in E]; f_equal.
  - apply Rabs_right. lra.
  - rewrite Rabs_left by lra. lra.
Qed.

Lemma log2R_1 : log2R 1 = 0.
Proof. unfold log2R. rewrite ln_1. field. pose proof ln2_pos. lra. Qed.

Lemma log2R_2 : log2R 2 = 1.
Proof. unfold log2R. field. pose proof ln2_pos. lra. Qed.


Lemma log2R_inv_65536 : log2R (/ 65536) = - 16.
Proof. rewrite <- pow2R_m16. apply log2R_pow2R. Qed.

(** ** [torch_max] is the maximum *)

Lemma foldl_fmax2_NaN (l : list fval) : foldl fmax2 NaN l = NaN.
Proof. induction l as [| y l IH]; simpl; [reflexivity | exact IH]. Qed.








(** ** The tuple branch, element by element *)

Lemma where_map_id (p : fval -> bool) (f : fval -> fval) (l : list fval) :
  where_ (map p l) (map f l) l = map (fun x => if p x then f x else x) l.
Proof. induction l as [| x l IH]; simpl; [reflexivity | now rewrite IH]. Qed.

Lemma tuple_exponent_elementwise (sc : scope) (u : list fval) :
  tuple_exponent sc u
  = match torch_max (map flog2 u) with
    | Some max_u =>
        Returned (map (fun x => tier_exponent sc max_u (flog2 x)) u)
    | None => Raised "RuntimeError"
    end.
Proof.
  unfold tuple_exponent.
  destruct (torch_max (map flog2 u)) as [m |]; simpl; [| reflexivity].
  now rewrite quant_exponent_map, map_map.
Qed.

Lemma tuple_quantize_elementwise (sc : scope) (t : tensor) :
  tuple_quantize sc t
  = match torch_max (map flog2 (data t)),
          torch_max (map flog2 (map fneg (data t))) with
    | Some max_pos, Some max_neg =>
        Returned (mkTensor (shape t)
                    (map (tuple_value sc max_pos max_neg) (data t)))
    | _, _ => Raised "RuntimeError"
    end.
Proof.
  unfold tuple_quantize. rewrite !tuple_exponent_elementwise.
  destruct (torch_max (map flog2 (data t))) as [mp |]; simpl; [| reflexivity].
  destruct (torch_max (map flog2 (map fneg (data t)))) as [mn |]; simpl;
    [| reflexivity].
  rewrite !map_map.
  rewrite (where_map_id flt0
             (fun x => fneg (fpow2 (tier_exponent sc mn (flog2 (fneg x)))))).
  now rewrite (where_map fgt0
                 (fun x => fpow2 (tier_exponent sc mp (flog2 x)))
                 (fun x => if flt0 x
                           then fneg (fpow2 (tier_exponent sc mn (flog2 (fneg x))))
                           else x)).
Qed.

Lemma log2R_3_bounds : 201 / 128 < log2R 3 < 203 / 128.
Proof.
  assert (H3 : 0 < 3) by lra.
  assert (Hlo : 2 ^ 201 < 3 ^ 128).
  { rewrite !pow_IZR. apply IZR_lt. now vm_compute. }
  assert (Hhi : 3 ^ 128 < 2 ^ 203).
  { rewrite !pow_IZR. apply IZR_lt. now vm_compute. }
  apply (log2R_lower 3 201 128 H3) in Hlo.
  apply (log2R_upper 3 203 128 H3) in Hhi.
  rewrite !INR_IZR_INZ in Hlo, Hhi.
  change (Z.of_nat 201) with 201%Z in Hlo.
  change (Z.of_nat 128) with 128%Z in Hlo, Hhi.
  change (Z.of_nat 203) with 203%Z in Hhi.
  lra.
Qed.

Lemma round_log2R_3_low : round_half_even (log2R 3 * 4) = 6%Z.
Proof. apply round_half_even_near. pose proof log2R_3_bounds. lra. Qed.

Lemma round_log2R_3_highest : round_half_even (log2R 3 * 64) = 101%Z.
Proof. apply round_half_even_near. pose proof log2R_3_bounds. lra. Qed.

Lemma pow2R_0 : pow2R 0 = 1.
Proof. unfold pow2R. apply Rpower_O. lra. Qed.

Lemma forward_tuple_singleton (sc : scope) (t : tensor) :
  forward_tuple sc [t]
  = (fun r => [r])
      <$> tuple_quantize sc (mkTensor (shape t) (range_clamp sc (data t))).
Proof.
  unfold forward_tuple, clone. simpl.
  now destruct (tuple_quantize sc _).
Qed.

Lemma mixed_sign_example_clamped :
  range_clamp train_scope (data mixed_sign_example) = data mixed_sign_example.
Proof.
  rewrite range_clamp_map. simpl.
  rewrite !clamp_value_in_range; [reflexivity | |].
  - rewrite Rabs_left; lra.
  - rewrite Rabs_right; lra.
Qed.

(** C8 (the code departs from the claim). On the one-member tuple holding
    the rank-2 tensor [[3, -1]] the tuple branch of [forward] rounds the
    logarithm of 3 at the Low scale and returns [2^(6/4)], while the
    single-tensor branch on the same tensor rounds it at the Highest scale
    and returns [2^(101/64)]: the maximum the tuple branch compares with is
    the NaN that [log2] gives for the negative element. *)
Theorem tuple_branch_differs_on_mixed_signs :
  result (forward train_scope (mkContext []) (PTuple [mixed_sign_example]))
  = Returned
      (PTuple [mkTensor [1; 2]%nat [Fin (pow2R (6 / 4)); Fin (- 1)]])
  /\ result (forward train_scope (mkContext []) (PTensor mixed_sign_example))
     = Returned
         (PTensor (mkTensor [1; 2]%nat [Fin (pow2R (101 / 64)); Fin (- 1)]))
  /\ pow2R (6 / 4) <> pow2R (101 / 64).
Proof.
  split; [| split].
  - change (result (forward train_scope (mkContext [])
                      (PTuple [mixed_sign_example])))
      with (PTuple <$> forward_tuple train_scope [mixed_sign_example]).
    rewrite forward_tuple_singleton, mixed_sign_example_clamped.
    rewrite tuple_quantize_elementwise. simpl.
    eval_cmp. unfold tuple_value. eval_cmp.
    change (IZR (2 ^ 2)) with 4.
    rewrite round_log2R_3_low.
    replace (- (-1)) with 1 by lra. rewrite log2R_1.
    replace (0 * 4) with (IZR 0) by lra. rewrite round_half_even_IZR.
    replace (0 / 4) with 0 by lra. rewrite pow2R_0.
    reflexivity.
  - change (result (forward train_scope (mkContext [])
                      (PTensor mixed_sign_example)))
      with (PTensor <$> result (forward_tensor train_scope mixed_sign_example)).
    rewrite forward_tensor_ranked by (left; reflexivity). simpl.
    pose proof mixed_sign_example_clamped as Hc.
    rewrite range_clamp_map in Hc. simpl in Hc.
    injection Hc as Hc3 Hc1. rewrite !Hc3, !Hc1.
    unfold nonzero_logs. eval_cmp. unfold log_abs. eval_cmp.
    replace (- (-1)) with 1 by lra. rewrite log2R_1.
    pose proof log2R_3_bounds as Hb. eval_cmp.
    rewrite !quantize_value_spec.
    rewrite (spec_quantize_exact _ (-1) 0)
      by (try rewrite Rabs_left by lra;
          try (replace (- (-1)) with 1 by lra; apply log2R_1); lra).
    unfold spec_quantize. simpl. rewrite Rabs_right by lra. eval_cmp.
    unfold spec_tier. eval_cmp.
    change (IZR (2 ^ (2 + 2 + 2))) with 64.
    now rewrite round_log2R_3_highest.
  - intros H. apply pow2R_inj in H. lra.
Qed.

(** ** Where the two branches of [forward] agree

    On a non-empty member whose elements are all positive, or all negative,
    the maximum the tuple branch compares with is the one the single-tensor
    branch takes, and the two branches return the same elements. *)

Lemma fgt0_nonzero (x : fval) : fgt0 x = true -> fnonzero x = true.
Proof.
  destruct x as [| | | r]; simpl; try easy.
  rewrite Rltb_true, Rnonzerob_true. lra.
Qed.

Lemma flt0_nonzero (x : fval) :
  flt0 x = true -> fnonzero x = true /\ fgt0 x = false.
Proof.
  destruct x as [| | | r]; simpl; try easy.
  rewrite Rltb_true, Rnonzerob_true, Rltb_false. lra.
Qed.

Lemma filter_all (d : list fval) :
  Forall (fun x => fnonzero x = true) d -> List.filter fnonzero d = d.
Proof.
  induction 1 as [| x d Hx _ IH]; simpl; [reflexivity |].
  now rewrite Hx, IH.
Qed.

Lemma torch_max_nonempty (d : list fval) :
  d <> [] -> exists m, torch_max d = Some m.
Proof. destruct d; [easy | simpl; eauto]. Qed.

Lemma tuple_quantize_one_sign (sc : scope) (sh : list nat) (d : list fval) :
  d <> [] ->
  Forall (fun x => fgt0 x = true) d \/ Forall (fun x => flt0 x = true) d ->
  tuple_quantize sc (mkTensor sh d) = mkTensor sh <$> tier_quantize sc d.
Proof.
  intros Hne Hsign.
  rewrite tuple_quantize_elementwise, tier_quantize_elementwise. simpl.
  assert (Hnz : Forall (fun x => fnonzero x = true) d).
  { destruct Hsign as [H | H]; eapply Forall_impl; try exact H; simpl.
    - apply fgt0_nonzero.
    - intros x Hx. now apply flt0_nonzero. }
  unfold nonzero_logs. rewrite (filter_all d Hnz).
  destruct (torch_max_nonempty (map flog2 d)) as [mp Hmp].
  { now destruct d. }
  destruct (torch_max_nonempty (map flog2 (map fneg d))) as [mn Hmn].
  { now destruct d. }
  rewrite Hmp, Hmn.
  destruct Hsign as [Hpos | Hneg].
  - assert (Hlogs : map log_abs d = map flog2 d).
    { apply map_ext_Forall. eapply Forall_impl; [exact Hpos |].
      intros x Hx. unfold log_abs. now rewrite Hx. }
    rewrite Hlogs, Hmp. simpl. do 2 f_equal.
    apply map_ext_Forall. eapply Forall_impl; [exact Hpos |].
    intros x Hx. simpl. unfold tuple_value, quantize_value, log_abs.
    now rewrite Hx, (fgt0_nonzero x Hx).
  - assert (Hlogs : map log_abs d = map flog2 (map fneg d)).
    { rewrite map_map. apply map_ext_Forall.
      eapply Forall_impl; [exact Hneg |].
      intros x Hx. unfold log_abs.
      now rewrite (proj2 (flt0_nonzero x Hx)). }
    rewrite Hlogs, Hmn. simpl. do 2 f_equal.
    apply map_ext_Forall. eapply Forall_impl; [exact Hneg |].
    intros x Hx. simpl. unfold tuple_value, quantize_value, log_abs.
    destruct (flt0_nonzero x Hx) as [Hn Hg].
    now rewrite Hx, Hn, Hg.
Qed.

Lemma clamp_value_zero : clamp_value train_scope (Fin 0) = Fin (/ 65536).
Proof.
  unfold clamp_value.
  change (threshold_down train_scope) with (/ 65536).
  change (threshold_up train_scope) with 65536.
  simpl. eval_cmp. rewrite Rabs_R0.
  rewrite Rmax_right, Rmin_left by lra. reflexivity.
Qed.

Lemma quantize_value_threshold_down (max_val : fval) :
  quantize_value train_scope max_val (Fin (/ 65536)) = Fin (/ 65536).
Proof.
  rewrite quantize_value_spec. apply (spec_quantize_exact _ _ (- 16)).
  - lra.
  - rewrite Rabs_right by lra. apply log2R_inv_65536.
Qed.

(** A zero element leaves the single-tensor [forward] as [threshold_down],
    at every rank. *)
Lemma zero_element_output (t : tensor) (i : nat) :
  data t !! i = Some (Fin 0) ->
  exists out,
    result (forward_tensor train_scope t) = Returned out
    /\ data out !! i = Some (Fin (threshold_down train_scope)).
Proof.
  intros Hi. change (threshold_down train_scope) with (/ 65536).
  destruct (forward_tensor_element t i _ Hi) as (out & Hout & _ & Hcases).
  exists out. split; [exact Hout |].
  rewrite clamp_value_zero in Hcases.
  destruct Hcases as [(_ & M & _ & Hq) | (_ & Hq)]; [| exact Hq].
  now rewrite quantize_value_threshold_down in Hq.
Qed.

(** C2 (the code departs from the claim). The rank-2 tensor [[0]] does not
    come back unchanged: its zero is raised to [threshold_down = 2^-16] by
    the clamp, counts as nonzero from then on and is output as [2^-16], in
    the single-tensor branch and in the tuple branch alike. *)
Theorem zero_is_not_passed_through :
  result (forward train_scope (mkContext []) (PTensor zero_example))
  = Returned (PTensor (mkTensor [1; 1]%nat [Fin (/ 65536)]))
  /\ result (forward train_scope (mkContext []) (PTuple [zero_example]))
     = Returned (PTuple [mkTensor [1; 1]%nat [Fin (/ 65536)]])
  /\ Fin (/ 65536) <> Fin 0
  /\ nonzero (range_clamp train_scope (data zero_example)) = [0%nat].
Proof.
  assert (Hclamp : range_clamp train_scope (data zero_example)
                   = [Fin (/ 65536)]).
  { rewrite range_clamp_map. simpl. now rewrite clamp_value_zero. }
  split; [| split; [| split]].
  - change (result (forward train_scope (mkContext []) (PTensor zero_example)))
      with (PTensor <$> result (forward_tensor train_scope zero_example)).
    rewrite forward_tensor_ranked by (left; reflexivity). simpl.
    rewrite !clamp_value_zero. unfold nonzero_logs. eval_cmp.
    now rewrite quantize_value_threshold_down.
  - change (result (forward train_scope (mkContext []) (PTuple [zero_example])))
      with (PTuple <$> forward_tuple train_scope [zero_example]).
    rewrite forward_tuple_singleton, Hclamp.
    rewrite tuple_quantize_elementwise. simpl.
    eval_cmp. rewrite log2R_inv_65536. unfold tuple_value. eval_cmp.
    rewrite log2R_inv_65536. unfold tier_exponent. eval_cmp.
    change (IZR (2 ^ (2 + 2 + 2))) with 64.
    replace (-16 * 64) with (IZR (- 1024)) by lra.
    rewrite round_half_even_IZR.
    replace (-1024 / 64) with (- 16) by lra.
    now rewrite pow2R_m16.
  - intros H. injection H as H. lra.
  - rewrite Hclamp. unfold nonzero. simpl. now eval_cmp.
Qed.

(** C3 (counterexample). On the rank-1 tensor [[1]] the single-tensor
    [forward] raises nothing: it prints "Out of shape" and returns the
    tensor. *)
Lemma rank_one_is_not_rejected :
  forward train_scope (mkContext []) (PTensor vector_example)
  = mkRun ["Out of shape"%string] (Returned (PTensor vector_example))
  /\ ~ (exists exc,
          result (forward train_scope (mkContext []) (PTensor vector_example))
          = Raised exc).
Proof.
  assert (H : forward train_scope (mkContext []) (PTensor vector_example)
              = mkRun ["Out of shape"%string]
                  (Returned (PTensor vector_example))).
  { unfold forward. rewrite forward_tensor_other_rank by (simpl; lia).
    simpl. rewrite clamp_value_in_range by (rewrite Rabs_right; lra).
    reflexivity. }
  split; [exact H |]. rewrite H. simpl. intros [exc Hexc]. discriminate.
Qed.

(** C3 (amended). On a tensor whose rank is neither 2 nor 3 the
    single-tensor [forward] raises no error: it prints "Out of shape" and
    returns the range-clamped tensor, without log-domain quantization. *)
Theorem other_rank_is_clamped_only (ctx : context) (t : tensor) :
  length (shape t) <> 2%nat -> length (shape t) <> 3%nat ->
  forward train_scope ctx (PTensor t)
  = mkRun ["Out of shape"%string]
      (Returned (PTensor (mkTensor (shape t)
                            (range_clamp train_scope (data t))))).
Proof.
  intros H2 H3. unfold forward.
  rewrite (forward_tensor_other_rank _ _ H2 H3). simpl.
  now rewrite range_clamp_map.
Qed.

Lemma other_rank_is_clamped_only_witness :
  forward train_scope (mkContext []) (PTensor vector_example)
  = mkRun ["Out of shape"%string]
      (Returned (PTensor (mkTensor (shape vector_example)
                            (range_clamp train_scope (data vector_example))))).
Proof.
  apply (other_rank_is_clamped_only (mkContext []) vector_example).
  - simpl. lia.
  - simpl. lia.
Defined.

(** ** Hook registration *)

Lemma prefix_app (a b : string) :
  String.prefix a b = true <-> exists post, b = (a +:+ post)%string.
Proof.
  revert b. induction a as [| c a IH]; intros b.
  - destruct b; simpl; split; eauto.
  - destruct b as [| d b]; simpl.
    + split; [discriminate | intros [post H]; discriminate].
    + destruct (Ascii.ascii_dec c d) as [-> | Hne].
      * rewrite IH. split; intros [post H]; exists post.
        -- now rewrite H.
        -- now injection H.
      * split; [discriminate |]. intros [post H]. injection H as H1 H2.
        congruence.
Qed.

(** [str_in] finds the needle exactly when the text contains it. *)
Lemma str_in_spec (needle hay : string) :
  str_in needle hay = true
  <-> exists pre post, hay = (pre +:+ needle +:+ post)%string.
Proof.
  induction hay as [| c hay IH].
  - change (str_in needle "") with (String.prefix needle "" || false).
    rewrite orb_false_r, prefix_app. split.
    + intros [post H]. exists EmptyString, post. exact H.
    + intros (pre & post & H). destruct pre; [eauto | discriminate].
  - change (str_in needle (String c hay))
      with (String.prefix needle (String c hay) || str_in needle hay).
    rewrite orb_true_iff, prefix_app, IH. split.
    + intros [[post H] | (pre & post & H)].
      * exists EmptyString, post. exact H.
      * exists (String c pre), post. simpl. now rewrite H.
    + intros (pre & post & H). destruct pre as [| d pre].
      * left. exists post. exact H.
      * right. simpl in H. injection H as _ H. eauto.
Qed.

Lemma isinstance_true (m : module) (cls : string) :
  isinstance m cls = true <-> cls ∈ class_mro m.
Proof. unfold isinstance. apply bool_decide_eq_true. Qed.

Lemma isinstance_false (m : module) (cls : string) :
  isinstance m cls = false <-> cls ∉ class_mro m.
Proof. unfold isinstance. apply bool_decide_eq_false. Qed.

Lemma selected_spec (name : string) (m : module) :
  selected name m = true
  <-> (nn_ModuleList ∉ class_mro m)
      /\ children m = []
      /\ ~ (exists pre post,
              name = (pre +:+ "intermediate_act_fn" +:+ post)%string)
      /\ (nn_LayerNorm ∉ class_mro m)
      /\ (nn_Dropout ∉ class_mro m)
      /\ (forall a, a ∈ EXCLUDED_ACTIVATIONS -> a ∉ class_mro m).
Proof.
  unfold selected.
  rewrite !andb_true_iff, !negb_true_iff, !isinstance_false.
  rewrite bool_decide_eq_true.
  rewrite <- (str_in_spec "intermediate_act_fn" name).
  rewrite <- not_true_iff_false.
  assert (Hex : existsb (isinstance m) EXCLUDED_ACTIVATIONS = false
                <-> forall a, a ∈ EXCLUDED_ACTIVATIONS -> a ∉ class_mro m).
  { rewrite <- not_true_iff_false, existsb_exists. split.
    - intros H a Ha Hin. apply H. exists a.
      split; [now apply list_elem_of_In | now apply isinstance_true].
    - intros H (a & Ha & Hi). apply (H a).
      + now apply list_elem_of_In.
      + now apply isinstance_true. }
  rewrite Hex. tauto.
Qed.

Lemma hook_count_register (m : module) :
  hook_count ActivationHook (register_forward_hook m ActivationHook)
  = S (hook_count ActivationHook m).
Proof.
  unfold hook_count, register_forward_hook. simpl.
  rewrite List.filter_app, length_app. simpl. lia.
Qed.

(** The exclusions and the inclusion the specification lists as tests. *)
Lemma registration_examples :
  selected "transformer.h.0.ln_1" layer_norm_leaf = false
  /\ selected "transformer.h.0.attn.resid_dropout" dropout_leaf = false
  /\ selected "encoder.layer.0.intermediate.intermediate_act_fn" linear_leaf
     = false
  /\ selected "lm_head" linear_leaf = true.
Proof. repeat split; vm_compute; reflexivity. Qed.

(** C9 (counterexample). A leaf batch-normalization module, a leaf
    one-dimensional dropout module and the leaf Gaussian-error-linear
    activation of a GPT-2 block are a normalization module, a dropout module
    and an activation of an excluded kind, and the loop attaches the
    interceptor to all three: line 486 tests the classes LayerNorm and
    Dropout and the seven activation classes of torch.nn only. *)
Lemma other_normalization_and_dropout_are_hooked :
  is_normalization_module batch_norm_leaf = true
  /\ is_dropout_module dropout1d_leaf = true
  /\ is_excluded_activation_kind new_gelu_leaf = true
  /\ spec_selected "bn" batch_norm_leaf = false
  /\ spec_selected "drop" dropout1d_leaf = false
  /\ spec_selected "transformer.h.0.mlp.act" new_gelu_leaf = false
  /\ register_hooks [("bn"%string, batch_norm_leaf);
                     ("drop"%string, dropout1d_leaf);
                     ("transformer.h.0.mlp.act"%string, new_gelu_leaf)]
     = [("bn"%string, register_forward_hook batch_norm_leaf ActivationHook);
        ("drop"%string, register_forward_hook dropout1d_leaf ActivationHook);
        ("transformer.h.0.mlp.act"%string,
         register_forward_hook new_gelu_leaf ActivationHook)].
Proof. repeat split; vm_compute; reflexivity. Qed.

(** C9 (amended). The loop attaches the interceptor, once, to exactly the
    modules that are not an instance of ModuleList, have no children, whose
    qualified name does not contain "intermediate_act_fn", and that are not
    an instance of the class LayerNorm, of the class Dropout, or of one of
    the classes ReLU, Tanh, GELU, Sigmoid, Softmax, LeakyReLU and PReLU of
    torch.nn; every other module is left as it is.  So a LayerNorm module,
    a Dropout module and a module with the marker in its name get no
    interceptor, and a leaf Linear module gets one. *)
Theorem hook_registration
  (named_modules : list (string * module)) (i : nat) (name : string)
  (m : module) :
  named_modules !! i = Some (name, m) ->
  exists m',
    register_hooks named_modules !! i = Some (name, m')
    /\ (m' = register_forward_hook m ActivationHook
        /\ hook_count ActivationHook m' = S (hook_count ActivationHook m)
        <-> (nn_ModuleList ∉ class_mro m)
            /\ children m = []
            /\ ~ (exists pre post,
                    name = (pre +:+ "intermediate_act_fn" +:+ post)%string)
            /\ (nn_LayerNorm ∉ class_mro m)
            /\ (nn_Dropout ∉ class_mro m)
            /\ (forall a, a ∈ EXCLUDED_ACTIVATIONS -> a ∉ class_mro m))
    /\ (m' = m \/ m' = register_forward_hook m ActivationHook)
    /\ ((nn_LayerNorm ∈ class_mro m) \/ (nn_Dropout ∈ class_mro m)
        \/ (exists pre post,
               name = (pre +:+ "intermediate_act_fn" +:+ post)%string) ->
        m' = m)
    /\ (class_mro m = class_mro linear_leaf -> children m = [] ->
        name = "lm_head"%string ->
        m' = register_forward_hook m ActivationHook).
Proof.
  intros Hi. unfold register_hooks. rewrite lookup_map, Hi. simpl.
  pose proof (selected_spec name m) as Hspec.
  destruct (selected name m) eqn:Hsel.
  - exists (register_forward_hook m ActivationHook).
    split; [reflexivity |].
    assert (Hcond := proj1 Hspec eq_refl).
    split; [| split; [| split]].
    + split; [intros _; exact Hcond |].
      intros _. split; [reflexivity | apply hook_count_register].
    + now right.
    + destruct Hcond as (_ & _ & Hname & Hln & Hdo & _).
      intros [H | [H | H]]; contradiction.
    + reflexivity.
  - exists m. split; [reflexivity |].
    split; [| split; [| split]].
    + split.
      * intros [_ Hcount]. lia.
      * intros Hcond. apply Hspec in Hcond. discriminate.
    + now left.
    + reflexivity.
    + intros Hmro Hch ->. exfalso.
      assert (Htrue : selected "lm_head" m = true).
      { unfold selected, isinstance. rewrite Hmro, Hch. now vm_compute. }
      congruence.
Qed.

Lemma hook_registration_witness :
  exists m',
    register_hooks [("h.0.ln_1"%string, layer_norm_leaf);
                    ("lm_head"%string, linear_leaf)] !! 1%nat
    = Some ("lm_head"%string, m')
    /\ (m' = register_forward_hook linear_leaf ActivationHook
        /\ hook_count ActivationHook m'
           = S (hook_count ActivationHook linear_leaf)
        <-> (nn_ModuleList ∉ class_mro linear_leaf)
            /\ children linear_leaf = []
            /\ ~ (exists pre post,
                    "lm_head"%string
                    = (pre +:+ "intermediate_act_fn" +:+ post)%string)
            /\ (nn_LayerNorm ∉ class_mro linear_leaf)
            /\ (nn_Dropout ∉ class_mro linear_leaf)
            /\ (forall a, a ∈ EXCLUDED_ACTIVATIONS -> a ∉ class_mro linear_leaf))
    /\ (m' = linear_leaf \/ m' = register_forward_hook linear_leaf ActivationHook)
    /\ ((nn_LayerNorm ∈ class_mro linear_leaf)
        \/ (nn_Dropout ∈ class_mro linear_leaf)
        \/ (exists pre post,
               "lm_head"%string
               = (pre +:+ "intermediate_act_fn" +:+ post)%string) ->
        m' = linear_leaf)
    /\ (class_mro linear_leaf = class_mro linear_leaf ->
        children linear_leaf = [] ->
        "lm_head"%string = "lm_head"%string ->
        m' = register_forward_hook linear_leaf ActivationHook).
Proof.
  apply (hook_registration
           [("h.0.ln_1"%string, layer_norm_leaf);
            ("lm_head"%string, linear_leaf)] 1 "lm_head" linear_leaf).
  reflexivity.
Defined.

(** ** The constants are never reassigned *)

Lemma exec_keeps_state (st : state) (ops : list operation) :
  exec st ops = (st, map (fun op => (step st op).2) ops).
Proof.
  induction ops as [| op ops IH]; [reflexivity |].
  destruct op; simpl; now rewrite IH.
Qed.

(** C10. The constants bound before the hooks are registered are
    [threshold_up = 2^16] and [threshold_down = 2^-16], from the mantissa
    budget of 5 bits ([2^(5-1) = 16]), and the scales [4 = 2^2], [16 = 2^4]
    and [64 = 2^6], each tier having two fractional bits more than the one
    below.  Whatever calls of [forward], [backward] and [activation_hook]
    follow the registration, the scope keeps these values, and every call is
    answered with them. *)
Theorem configuration_is_fixed :
  (num_bit_mantissa train_scope = 5%Z
   /\ threshold_mantissa train_scope = (2 ^ (5 - 1))%Z
   /\ threshold_up train_scope = 2 ^ 16
   /\ threshold_down train_scope = / 2 ^ 16
   /\ threshold_up train_scope = pow2R 16
   /\ threshold_down train_scope = pow2R (- 16)
   /\ num_frac_low_prec train_scope = 2%Z
   /\ num_frac_high_prec train_scope = (num_frac_low_prec train_scope + 2)%Z
   /\ num_frac_highest_prec train_scope
      = (num_frac_high_prec train_scope + 2)%Z
   /\ scale_low_prec train_scope = 4%Z
   /\ scale_high_prec train_scope = 16%Z
   /\ scale_highest_prec train_scope = 64%Z
   /\ scale_low_prec train_scope = (2 ^ 2)%Z
   /\ scale_high_prec train_scope = (2 ^ 4)%Z
   /\ scale_highest_prec train_scope = (2 ^ 6)%Z)
  /\ forall (named_modules : list (string * module)) (ops : list operation),
      st_scope (instrument named_modules) = train_scope
      /\ (exec (instrument named_modules) ops).1 = instrument named_modules
      /\ st_scope (exec (instrument named_modules) ops).1 = train_scope
      /\ (exec (instrument named_modules) ops).2
         = map (fun op => (step (mkState train_scope
                                   (register_hooks named_modules)) op).2) ops.
Proof.
  split.
  - repeat split; try reflexivity.
    + change (threshold_up train_scope) with 65536. simpl. lra.
    + change (threshold_down train_scope) with (/ 65536). f_equal. simpl. lra.
    + now rewrite pow2R_16.
    + now rewrite pow2R_m16.
  - intros nm ops. rewrite exec_keeps_state. simpl. auto.
Qed.

(** ** The grid and the floating-point numbers *)








(** ** Further properties of the single-tensor branch *)

(** X1. The single-tensor [forward] never raises, whatever the scope, the
    rank and the elements (NaN and infinities included): it returns a tensor
    of the shape and the number of elements of its input, and it prints
    exactly when the rank is neither 2 nor 3. *)
Theorem forward_tensor_returns (sc : scope) (t : tensor) :
  exists out,
    result (forward_tensor sc t) = Returned out
    /\ shape out = shape t
    /\ length (data out) = length (data t)
    /\ (stdout (forward_tensor sc t) = []
        <-> (length (shape t) = 2 \/ length (shape t) = 3)%nat).
Proof.
  destruct (decide (length (shape t) = 2 \/ length (shape t) = 3)%nat)
    as [Hrank | Hrank].
  - rewrite (forward_tensor_ranked _ _ Hrank). simpl.
    eexists. split; [reflexivity |]. split; [reflexivity |]. simpl.
    split; [| tauto].
    destruct (torch_max _); now rewrite ?length_map.
  - rewrite forward_tensor_other_rank by lia. simpl.
    eexists. split; [reflexivity |]. split; [reflexivity |]. simpl.
    split; [apply length_map |]. split; [discriminate | tauto].
Qed.

Lemma clamp_value_idempotent (x : fval) :
  clamp_value train_scope (clamp_value train_scope x)
  = clamp_value train_scope x.
Proof.
  assert (Hcase : x = NaN \/ x <> NaN) by (destruct x; auto; right; discriminate).
  destruct Hcase as [-> | Hx]; [reflexivity |].
  destruct (clamp_value_number x Hx) as (c & -> & Hc & _).
  now apply clamp_value_in_range.
Qed.

(** X2. The range clamp on a finite element: a magnitude between
    [threshold_down] and [threshold_up] is kept; a larger one is replaced by
    [threshold_up] and a smaller one, zero included, by [threshold_down],
    with the sign of the element (plus for zero).  Clamping twice is
    clamping once. *)
Theorem range_clamp_saturates (l : list fval) (i : nat) (r : R) :
  l !! i = Some (Fin r) ->
  (exists c,
     range_clamp train_scope l !! i = Some (Fin c)
     /\ (/ 65536 <= Rabs r <= 65536 -> c = r)
     /\ (65536 < r -> c = 65536)
     /\ (r < - 65536 -> c = - 65536)
     /\ (0 <= r < / 65536 -> c = / 65536)
     /\ (- / 65536 < r < 0 -> c = - / 65536))
  /\ range_clamp train_scope (range_clamp train_scope l)
     = range_clamp train_scope l.
Proof.
  intros Hi. split.
  - rewrite range_clamp_map, lookup_map, Hi. simpl.
    unfold clamp_value.
    change (threshold_down train_scope) with (/ 65536).
    change (threshold_up train_scope) with 65536.
    simpl.
    set (c0 := Rmin (Rmax (Rabs r) (/ 65536)) 65536).
    assert (Hc0 : (/ 65536 <= Rabs r <= 65536 -> c0 = Rabs r)
                  /\ (65536 < Rabs r -> c0 = 65536)
                  /\ (Rabs r < / 65536 -> c0 = / 65536)).
    { unfold c0, Rmin, Rmax.
      destruct (Rle_dec (Rabs r) (/ 65536)), (Rle_dec _ 65536);
        repeat split; intros; lra. }
    destruct Hc0 as (Hin & Hbig & Hsmall).
    destruct (Rltb r 0) eqn:E;
      [apply Rltb_true in E | apply Rltb_false in E].
    + exists (- c0). split; [reflexivity |].
      rewrite (Rabs_left r E) in *.
      repeat split; intros; try lra;
        first [ rewrite Hin by lra; lra
              | rewrite Hbig by lra; lra
              | rewrite Hsmall by lra; lra ].
    + exists c0. split; [reflexivity |].
      rewrite (Rabs_right r) in * by lra.
      repeat split; intros; try lra;
        first [ apply Hin; lra | apply Hbig; lra | apply Hsmall; lra ].
  - rewrite !range_clamp_map, map_map. apply map_ext.
    intros x. apply clamp_value_idempotent.
Qed.

Lemma range_clamp_saturates_witness :
  (exists c,
     range_clamp train_scope [Fin 100000; Fin 0] !! 0%nat = Some (Fin c)
     /\ (/ 65536 <= Rabs 100000 <= 65536 -> c = 100000)
     /\ (65536 < 100000 -> c = 65536)
     /\ (100000 < - 65536 -> c = - 65536)
     /\ (0 <= 100000 < / 65536 -> c = / 65536)
     /\ (- / 65536 < 100000 < 0 -> c = - / 65536))
  /\ range_clamp train_scope (range_clamp train_scope [Fin 100000; Fin 0])
     = range_clamp train_scope [Fin 100000; Fin 0].
Proof.
  apply (range_clamp_saturates [Fin 100000; Fin 0] 0 100000).
  reflexivity.
Defined.

Lemma scale_of_train_scope_multiple (t : Tier) :
  exists j, (0 < j)%Z /\ scale_of train_scope t = (4 * j)%Z.
Proof.
  destruct t; [exists 1%Z | exists 4%Z | exists 16%Z]; split;
    reflexivity || lia.
Qed.

Lemma spec_quantize_on_grid (max_val : fval) (c : R) (k : Z) :
  c <> 0 -> log2R (Rabs c) * 4 = IZR k ->
  spec_quantize train_scope max_val (Fin c) = Fin c.
Proof.
  intros Hc Hk. unfold spec_quantize.
  assert (Habs : 0 < Rabs c) by now apply Rabs_pos_lt.
  set (l := log2R (Rabs c)) in *.
  assert (Hl : flog2 (fabs (Fin c)) = Fin l).
  { simpl. now rewrite (proj2 (Rltb_true 0 (Rabs c))) by exact Habs. }
  rewrite Hl.
  destruct (scale_of_train_scope_multiple (spec_tier max_val (Fin l)))
    as (j & Hj & Hs).
  rewrite Hs.
  assert (Hjr : 0 < IZR j) by now apply IZR_lt.
  assert (He : round_scalar (4 * j) (Fin l) = Fin l).
  { unfold round_scalar. simpl.
    replace (l * IZR (4 * j)) with (IZR (k * j))
      by (rewrite !mult_IZR, <- Hk; ring).
    rewrite round_half_even_IZR. f_equal.
    rewrite !mult_IZR, <- Hk. field. lra. }
  rewrite He. simpl. unfold l. rewrite pow2R_log2R by exact Habs.
  destruct (Rltb 0 c) eqn:E;
    [apply Rltb_true in E | apply Rltb_false in E]; f_equal.
  - apply Rabs_right. lra.
  - rewrite Rabs_left by lra. lra.
Qed.

(** X3. An element of the representable range whose base-2 logarithm is a
    multiple of 1/4 (every power of two between 2^-16 and 2^16, in
    particular) comes out of the single-tensor [forward] as it went in,
    whatever its tier, the other elements and the rank of the tensor. *)
Theorem coarse_grid_is_fixed (t : tensor) (i : nat) (c : R) (k : Z) :
  data t !! i = Some (Fin c) ->
  / 65536 <= Rabs c <= 65536 ->
  log2R (Rabs c) * 4 = IZR k ->
  exists out,
    result (forward_tensor train_scope t) = Returned out
    /\ data out !! i = Some (Fin c).
Proof.
  intros Hi Hrange Hk.
  destruct (forward_tensor_element t i _ Hi) as (out & Hout & _ & Hcases).
  exists out. split; [exact Hout |].
  rewrite (clamp_value_in_range c Hrange) in Hcases.
  destruct Hcases as [(_ & M & _ & Hq) | (_ & Hq)]; [| exact Hq].
  rewrite Hq, quantize_value_spec. f_equal.
  apply (spec_quantize_on_grid M c k); [| exact Hk].
  intros ->. rewrite Rabs_R0 in Hrange. lra.
Qed.

Lemma coarse_grid_is_fixed_witness :
  exists out,
    result (forward_tensor train_scope outlier_example) = Returned out
    /\ data out !! 1%nat = Some (Fin 2).
Proof.
  apply (coarse_grid_is_fixed outlier_example 1 2 4).
  - reflexivity.
  - rewrite Rabs_right; lra.
  - rewrite Rabs_right by lra. rewrite log2R_2. lra.
Defined.

(** ** NaN in the single-tensor branch *)

Lemma fmax2_NaN_r (a : fval) : fmax2 a NaN = NaN.
Proof. now destruct a. Qed.

Lemma foldl_fmax2_with_NaN (l : list fval) (a : fval) :
  NaN ∈ l -> foldl fmax2 a l = NaN.
Proof.
  revert a. induction l as [| y l IH]; intros a Hin.
  - now apply elem_of_nil in Hin.
  - simpl. apply elem_of_cons in Hin as [<- | Hin].
    + rewrite fmax2_NaN_r. apply foldl_fmax2_NaN.
    + now apply IH.
Qed.

Lemma torch_max_with_NaN (l : list fval) :
  NaN ∈ l -> torch_max l = Some NaN.
Proof.
  destruct l as [| a l]; intros Hin.
  - now apply elem_of_nil in Hin.
  - simpl. f_equal. apply elem_of_cons in Hin as [<- | Hin].
    + apply foldl_fmax2_NaN.
    + now apply foldl_fmax2_with_NaN.
Qed.

Lemma nonzero_logs_with_NaN (l : list fval) :
  NaN ∈ l -> NaN ∈ nonzero_logs l.
Proof.
  intros Hin. unfold nonzero_logs.
  apply list_elem_of_In, in_map_iff. exists NaN. split; [reflexivity |].
  apply filter_In. split; [now apply list_elem_of_In | reflexivity].
Qed.

Lemma spec_tier_NaN (l : fval) : spec_tier NaN l = Low.
Proof. unfold spec_tier. now destruct l. Qed.

(** X4. In a tensor of rank 2 or 3 that holds a NaN, the maximum the tiers
    are measured against is NaN, so every element is rounded at the Low
    scale, however close to the largest magnitude it is; the NaN itself
    stays NaN. *)
Theorem nan_forces_low_tier (t : tensor) (i : nat) (v : fval) :
  (length (shape t) = 2 \/ length (shape t) = 3)%nat ->
  NaN ∈ data t ->
  range_clamp train_scope (data t) !! i = Some v ->
  exists out,
    result (forward_tensor train_scope t) = Returned out
    /\ torch_max (nonzero_logs (range_clamp train_scope (data t))) = Some NaN
    /\ data out !! i = Some (spec_quantize train_scope NaN v)
    /\ scale_of train_scope (spec_tier NaN (flog2 (fabs v)))
       = scale_low_prec train_scope
    /\ (v = NaN -> data out !! i = Some NaN).
Proof.
  intros Hrank Hnan Hi.
  rewrite range_clamp_map in *.
  assert (Hmax : torch_max (nonzero_logs (map (clamp_value train_scope) (data t)))
                 = Some NaN).
  { apply torch_max_with_NaN, nonzero_logs_with_NaN.
    apply list_elem_of_In, in_map_iff. exists NaN.
    split; [reflexivity | now apply list_elem_of_In]. }
  rewrite (forward_tensor_ranked _ _ Hrank), Hmax. simpl.
  eexists. split; [reflexivity |]. split; [reflexivity |].
  assert (Hv : fnonzero v = true).
  { rewrite lookup_map in Hi. destruct (data t !! i) as [x |]; [| discriminate].
    simpl in Hi. injection Hi as <-. apply clamp_value_nonzero. }
  assert (Hout : map (fun x => if fnonzero x
                               then quantize_value train_scope NaN x else x)
                     (map (clamp_value train_scope) (data t)) !! i
                 = Some (spec_quantize train_scope NaN v)).
  { rewrite lookup_map, Hi. simpl. now rewrite Hv, quantize_value_spec. }
  split; [exact Hout |]. split; [now rewrite spec_tier_NaN |].
  intros ->. exact Hout.
Qed.

Lemma nan_forces_low_tier_witness :
  exists out,
    result (forward_tensor train_scope (mkTensor [1; 2]%nat [NaN; Fin 3]))
    = Returned out
    /\ torch_max (nonzero_logs (range_clamp train_scope [NaN; Fin 3]))
       = Some NaN
    /\ data out !! 0%nat = Some (spec_quantize train_scope NaN NaN)
    /\ scale_of train_scope (spec_tier NaN (flog2 (fabs NaN)))
       = scale_low_prec train_scope
    /\ (NaN = NaN -> data out !! 0%nat = Some NaN).
Proof.
  apply (nan_forces_low_tier (mkTensor [1; 2]%nat [NaN; Fin 3]) 0 NaN).
  - left. reflexivity.
  - apply list_elem_of_here.
  - reflexivity.
Defined.

(** ** The size of the rounding step *)

Lemma round_half_even_error (x : R) :
  Rabs (IZR (round_half_even x) - x) <= 1 / 2.
Proof.
  unfold round_half_even.
  pose proof (Zfloor_bound x) as [Hf1 Hf2].
  destruct (Rltb (x - IZR (Zfloor x)) (1 / 2)) eqn:E1;
    [apply Rltb_true in E1 | apply Rltb_false in E1].
  - apply Rabs_le. lra.
  - destruct (Rltb (1 / 2) (x - IZR (Zfloor x))) eqn:E2;
      [apply Rltb_true in E2 | apply Rltb_false in E2].
    + rewrite plus_IZR. apply Rabs_le. lra.
    + destruct (Z.even (Zfloor x)); [| rewrite plus_IZR]; apply Rabs_le; lra.
Qed.

Lemma pow2R_plus (x y : R) : pow2R (x + y) = pow2R x * pow2R y.
Proof. unfold pow2R. apply Rpower_plus. Qed.

(** X5. For a tensor of rank 2 or 3 and an element that is a number, the
    base-2 logarithm of the output magnitude differs from that of the
    clamped magnitude by at most half a step of the element's tier,
    [1 / (2 * scale)], hence by at most 1/8: the output magnitude is within
    a factor [2^(1/8)] of the clamped magnitude. *)
Theorem quantization_error (t : tensor) (i : nat) (x : fval) :
  (length (shape t) = 2 \/ length (shape t) = 3)%nat ->
  data t !! i = Some x -> x <> NaN ->
  exists (max_val : fval) (out : tensor) (c q : R),
    torch_max (nonzero_logs (range_clamp train_scope (data t))) = Some max_val
    /\ range_clamp train_scope (data t) !! i = Some (Fin c)
    /\ result (forward_tensor train_scope t) = Returned out
    /\ data out !! i = Some (Fin q)
    /\ Rabs (log2R (Rabs q) - log2R (Rabs c))
       * (2 * IZR (scale_of train_scope
                     (spec_tier max_val (flog2 (fabs (Fin c))))))
       <= 1
    /\ Rabs (log2R (Rabs q) - log2R (Rabs c)) <= 1 / 8
    /\ Rabs c * pow2R (- (1 / 8)) <= Rabs q <= Rabs c * pow2R (1 / 8).
Proof.
  intros Hrank Hi Hx.
  destruct (forward_tensor_element t i x Hi) as (out & Hout & _ & Hcases).
  destruct Hcases as [(_ & M & HM & Hq) | (Hno & _)]; [| lia].
  destruct (clamp_value_number x Hx) as (c & Hc & Hrange & _).
  assert (Hc0 : c <> 0) by (intros ->; rewrite Rabs_R0 in Hrange; lra).
  destruct (quantize_value_fin train_scope M c Hc0) as [Hl Hv].
  rewrite Hc, Hv in Hq.
  exists M, out, c. eexists.
  rewrite Hl.
  rewrite range_clamp_map, lookup_map, Hi.
  split; [exact HM |]. split; [simpl; now rewrite Hc |].
  split; [exact Hout |]. split; [exact Hq |].
  set (l := log2R (Rabs c)).
  set (s := scale_of train_scope (spec_tier M (Fin l))).
  set (e := IZR (round_half_even (l * IZR s)) / IZR s).
  assert (Habs : Rabs (if Rltb 0 c then pow2R e else - pow2R e) = pow2R e).
  { pose proof (pow2R_pos e).
    destruct (Rltb 0 c); [apply Rabs_right; lra |].
    rewrite Rabs_left by lra. lra. }
  rewrite Habs, log2R_pow2R.
  destruct (scale_of_train_scope_multiple (spec_tier M (Fin l)))
    as (j & Hj & Hs).
  fold s in Hs.
  assert (Hjr : 1 <= IZR j) by (apply IZR_le; lia).
  assert (Hsr : 4 <= IZR s) by (rewrite Hs, mult_IZR; lra).
  pose proof (round_half_even_error (l * IZR s)) as Herr.
  assert (Hdiff : e - l = (IZR (round_half_even (l * IZR s)) - l * IZR s) / IZR s).
  { unfold e. field. lra. }
  assert (Hstep : Rabs (e - l) * (2 * IZR s) <= 1).
  { rewrite Hdiff. unfold Rdiv. rewrite Rabs_mult.
    rewrite (Rabs_right (/ IZR s))
      by (left; apply Rinv_0_lt_compat; lra).
    replace (Rabs (IZR (round_half_even (l * IZR s)) - l * IZR s)
             * / IZR s * (2 * IZR s))
      with (2 * Rabs (IZR (round_half_even (l * IZR s)) - l * IZR s))
      by (field; lra).
    lra. }
  assert (Heighth : Rabs (e - l) <= 1 / 8).
  { pose proof (Rabs_pos (e - l)). nra. }
  split; [exact Hstep |]. split; [exact Heighth |].
  assert (Hcl : Rabs c = pow2R l).
  { unfold l. symmetry. apply pow2R_log2R. now apply Rabs_pos_lt. }
  rewrite Hcl, <- !pow2R_plus.
  assert (Hbetween : - (1 / 8) <= e - l <= 1 / 8).
  { revert Heighth. unfold Rabs. destruct (Rcase_abs (e - l)); lra. }
  split; apply pow2R_le; lra.
Qed.

Lemma quantization_error_witness :
  exists (max_val : fval) (out : tensor) (c q : R),
    torch_max (nonzero_logs (range_clamp train_scope (data mixed_sign_example)))
    = Some max_val
    /\ range_clamp train_scope (data mixed_sign_example) !! 0%nat
       = Some (Fin c)
    /\ result (forward_tensor train_scope mixed_sign_example) = Returned out
    /\ data out !! 0%nat = Some (Fin q)
    /\ Rabs (log2R (Rabs q) - log2R (Rabs c))
       * (2 * IZR (scale_of train_scope
                     (spec_tier max_val (flog2 (fabs (Fin c))))))
       <= 1
    /\ Rabs (log2R (Rabs q) - log2R (Rabs c)) <= 1 / 8
    /\ Rabs c * pow2R (- (1 / 8)) <= Rabs q <= Rabs c * pow2R (1 / 8).
Proof.
  apply (quantization_error mixed_sign_example 0 (Fin 3)).
  - left. reflexivity.
  - reflexivity.
  - discriminate.
Defined.

(** ** Further properties of the tuple branch *)

Lemma mapM_outcome_map {A B C : Type} (f : B -> outcome C) (g : A -> B)
  (l : list A) :
  mapM f (map g l) = mapM (fun x => f (g x)) l.
Proof. induction l as [| x l IH]; simpl; [reflexivity | now rewrite IH]. Qed.

Lemma mapM_outcome_Returned {A B : Type} (f : A -> outcome B) (g : A -> B)
  (l : list A) :
  Forall (fun x => f x = Returned (g x)) l -> mapM f l = Returned (map g l).
Proof.
  induction 1 as [| x l Hx _ IH]; simpl; [reflexivity |].
  now rewrite Hx, IH.
Qed.

Lemma mapM_outcome_Raised {A B : Type} (f : A -> outcome B) (e : string)
  (l : list A) :
  Forall (fun x => (exists r, f x = Returned r) \/ f x = Raised e) l ->
  Exists (fun x => f x = Raised e) l ->
  mapM f l = Raised e.
Proof.
  induction 1 as [| x l Hx Hall IH]; intros Hex.
  - now apply Exists_nil in Hex.
  - simpl. destruct Hx as [[r Hr] | Hr]; rewrite Hr; [| reflexivity].
    simpl. apply Exists_cons in Hex as [Hex | Hex]; [congruence |].
    now rewrite (IH Hex).
Qed.

Lemma tuple_quantize_cases (sc : scope) (sh : list nat) (d : list fval) :
  (d = [] /\ tuple_quantize sc (mkTensor sh d) = Raised "RuntimeError")
  \/ (d <> []
      /\ tuple_quantize sc (mkTensor sh d)
         = Returned
             (mkTensor sh
                (map (tuple_value sc
                        (default NaN (torch_max (map flog2 d)))
                        (default NaN (torch_max (map flog2 (map fneg d)))))
                     d))).
Proof.
  rewrite tuple_quantize_elementwise. simpl.
  destruct d as [| x d]; [left; now split | right].
  split; [discriminate | reflexivity].
Qed.

Lemma range_clamp_nil (sc : scope) (d : list fval) :
  range_clamp sc d = [] <-> d = [].
Proof.
  rewrite range_clamp_map. destruct d; simpl; split; intros; easy.
Qed.

Lemma forward_tuple_mapM (sc : scope) (ts : list tensor) :
  forward_tuple sc ts
  = mapM (fun t => tuple_quantize sc
                     (mkTensor (shape t) (range_clamp sc (data t)))) ts.
Proof. unfold forward_tuple, clone. now rewrite !mapM_outcome_map. Qed.

Lemma tuple_member_cases (sc : scope) (t : tensor) :
  (data t = []
   /\ tuple_quantize sc (mkTensor (shape t) (range_clamp sc (data t)))
      = Raised "RuntimeError")
  \/ (data t <> []
      /\ tuple_quantize sc (mkTensor (shape t) (range_clamp sc (data t)))
         = Returned (tuple_member_output sc t)).
Proof.
  destruct (tuple_quantize_cases sc (shape t) (range_clamp sc (data t)))
    as [[Hd H] | [Hd H]].
  - left. split; [now apply range_clamp_nil in Hd | exact H].
  - right. split; [| exact H]. intros Hnil. apply Hd.
    now apply range_clamp_nil.
Qed.

Lemma forward_tuple_nonempty (sc : scope) (ts : list tensor) :
  Forall (fun t => data t <> []) ts ->
  forward_tuple sc ts = Returned (map (tuple_member_output sc) ts).
Proof.
  intros Hall. rewrite forward_tuple_mapM.
  apply mapM_outcome_Returned.
  eapply Forall_impl; [exact Hall |]. intros t Ht. simpl.
  destruct (tuple_member_cases sc t) as [[Hd _] | [_ H]]; [contradiction | exact H].
Qed.

(** X6. The tuple branch of [forward] raises RuntimeError exactly when a
    member of the tuple has no element (the maximum of an empty tensor);
    otherwise it returns as many members as it was given, each of the shape
    and the number of elements of the member it comes from.  The
    single-tensor branch returns a tensor without elements as it is. *)
Theorem forward_tuple_raises_on_empty (sc : scope) (ts : list tensor) :
  ((Forall (fun t => data t <> []) ts
    /\ exists outs,
         forward_tuple sc ts = Returned outs
         /\ Forall2 (fun t o => shape o = shape t
                                /\ length (data o) = length (data t))
                    ts outs)
   \/ (Exists (fun t => data t = []) ts
       /\ forward_tuple sc ts = Raised "RuntimeError"))
  /\ forall t, data t = [] ->
       result (forward_tensor sc t) = Returned (mkTensor (shape t) []).
Proof.
  split.
  - destruct (decide (Forall (fun t => data t <> []) ts)) as [Hall | Hex].
    + left. split; [exact Hall |].
      exists (map (tuple_member_output sc) ts).
      split; [now apply forward_tuple_nonempty |].
      clear Hall. induction ts as [| t ts IH]; simpl; constructor; [| exact IH].
      unfold tuple_member_output. simpl.
      now rewrite length_map, range_clamp_map, length_map.
    + right. apply not_Forall_Exists in Hex; [| intros t; apply _].
      assert (Hex' : Exists (fun t => data t = []) ts).
      { eapply Exists_impl; [exact Hex |]. intros t Ht. simpl in Ht.
        destruct (data t); [reflexivity | exfalso; apply Ht; discriminate]. }
      split; [exact Hex' |].
      rewrite forward_tuple_mapM. apply mapM_outcome_Raised.
      * apply Forall_forall. intros t _.
        destruct (tuple_member_cases sc t) as [[_ H] | [_ H]]; eauto.
      * eapply Exists_impl; [exact Hex' |]. intros t Ht. simpl.
        destruct (tuple_member_cases sc t) as [[_ H] | [Hne _]];
          [exact H | contradiction].
  - intros t Ht.
    destruct (decide (length (shape t) = 2 \/ length (shape t) = 3)%nat)
      as [Hrank | Hrank].
    + rewrite (forward_tensor_ranked _ _ Hrank), Ht. reflexivity.
    + rewrite forward_tensor_other_rank by lia. now rewrite Ht.
Qed.

Lemma tuple_member_lookup (sc : scope) (ts : list tensor) (j : nat)
  (t : tensor) (i : nat) (x : fval) :
  Forall (fun t => data t <> []) ts ->
  ts !! j = Some t -> data t !! i = Some x ->
  exists outs o,
    forward_tuple sc ts = Returned outs
    /\ outs !! j = Some o
    /\ o = tuple_member_output sc t
    /\ shape o = shape t
    /\ data o !! i
       = Some (tuple_value sc
                 (default NaN
                    (torch_max (map flog2 (range_clamp sc (data t)))))
                 (default NaN
                    (torch_max (map flog2 (map fneg (range_clamp sc (data t))))))
                 (clamp_value sc x)).
Proof.
  intros Hall Hj Hi.
  exists (map (tuple_member_output sc) ts), (tuple_member_output sc t).
  split; [now apply forward_tuple_nonempty |].
  split; [now rewrite lookup_map, Hj |].
  split; [reflexivity |]. split; [reflexivity |].
  unfold tuple_member_output. simpl.
  rewrite lookup_map. rewrite range_clamp_map at 3.
  now rewrite lookup_map, Hi.
Qed.




Lemma fgt_NaN_r (l : fval) : fgt l NaN = false.
Proof. now destruct l. Qed.

Lemma tier_exponent_NaN (sc : scope) (l : fval) :
  tier_exponent sc NaN l = round_scalar (scale_low_prec sc) l.
Proof. unfold tier_exponent. simpl. now rewrite fgt_NaN_r. Qed.

Lemma flog2_clamped_negative (x : fval) :
  flt0 x = true -> flog2 (clamp_value train_scope x) = NaN.
Proof.
  intros Hneg.
  assert (Hx : x <> NaN) by (intros ->; discriminate).
  destruct (clamp_value_number x Hx) as (c & -> & _ & Hsign).
  rewrite Hneg in Hsign. simpl.
  rewrite (proj2 (Rltb_false 0 c)) by lra.
  now rewrite (proj2 (Rnonzerob_true c)) by lra.
Qed.

Lemma flog2_neg_clamped_positive (x : fval) :
  fgt0 x = true -> flog2 (fneg (clamp_value train_scope x)) = NaN.
Proof.
  intros Hpos.
  assert (Hx : x <> NaN) by (intros ->; discriminate).
  assert (Hnot : flt0 x = false).
  { destruct x as [| | | r]; simpl in *; try easy.
    apply Rltb_true in Hpos. apply Rltb_false. lra. }
  destruct (clamp_value_number x Hx) as (c & -> & _ & Hsign).
  rewrite Hnot in Hsign. simpl.
  rewrite (proj2 (Rltb_false 0 (- c))) by lra.
  now rewrite (proj2 (Rnonzerob_true (- c))) by lra.
Qed.

(** X8. In the tuple branch, a member that holds a positive and a negative
    element has NaN for both maxima, so every one of its elements is rounded
    at the Low scale, the largest included. *)
Theorem tuple_mixed_signs_round_low (ts : list tensor) (j : nat) (t : tensor)
  (a b : fval) (i : nat) (x : fval) :
  Forall (fun t => data t <> []) ts ->
  ts !! j = Some t ->
  a ∈ data t -> fgt0 a = true ->
  b ∈ data t -> flt0 b = true ->
  data t !! i = Some x ->
  exists outs o,
    forward_tuple train_scope ts = Returned outs
    /\ outs !! j = Some o
    /\ torch_max (map flog2 (range_clamp train_scope (data t))) = Some NaN
    /\ torch_max (map flog2 (map fneg (range_clamp train_scope (data t))))
       = Some NaN
    /\ exists v,
         range_clamp train_scope (data t) !! i = Some v
         /\ data o !! i
            = Some (let e := round_scalar (scale_low_prec train_scope)
                               (flog2 (fabs v)) in
                    if fgt0 v then fpow2 e
                    else if flt0 v then fneg (fpow2 e) else v).
Proof.
  intros Hall Hj Ha Hpos Hb Hneg Hi.
  destruct (tuple_member_lookup train_scope ts j t i x Hall Hj Hi)
    as (outs & o & Hret & Ho & _ & _ & Hdata).
  assert (Hmp : torch_max (map flog2 (range_clamp train_scope (data t)))
                = Some NaN).
  { apply torch_max_with_NaN. rewrite range_clamp_map, map_map.
    apply list_elem_of_In, in_map_iff. exists b.
    split; [now apply flog2_clamped_negative | now apply list_elem_of_In]. }
  assert (Hmn : torch_max (map flog2 (map fneg (range_clamp train_scope (data t))))
                = Some NaN).
  { apply torch_max_with_NaN. rewrite range_clamp_map, !map_map.
    apply list_elem_of_In, in_map_iff. exists a.
    split; [now apply flog2_neg_clamped_positive | now apply list_elem_of_In]. }
  rewrite Hmp, Hmn in Hdata. simpl in Hdata.
  exists outs, o. split; [exact Hret |]. split; [exact Ho |].
  split; [exact Hmp |]. split; [exact Hmn |].
  exists (clamp_value train_scope x).
  split; [now rewrite range_clamp_map, lookup_map, Hi |].
  rewrite Hdata. f_equal. unfold tuple_value.
  rewrite !tier_exponent_NaN, <- log_abs_spec. unfold log_abs.
  set (v := clamp_value train_scope x).
  destruct (fgt0 v) eqn:Eg; [reflexivity |].
  now destruct (flt0 v).
Qed.

Lemma tuple_mixed_signs_round_low_witness :
  exists outs o,
    forward_tuple train_scope [mixed_sign_example] = Returned outs
    /\ outs !! 0%nat = Some o
    /\ torch_max (map flog2 (range_clamp train_scope (data mixed_sign_example)))
       = Some NaN
    /\ torch_max (map flog2
                    (map fneg (range_clamp train_scope (data mixed_sign_example))))
       = Some NaN
    /\ exists v,
         range_clamp train_scope (data mixed_sign_example) !! 0%nat = Some v
         /\ data o !! 0%nat
            = Some (let e := round_scalar (scale_low_prec train_scope)
                               (flog2 (fabs v)) in
                    if fgt0 v then fpow2 e
                    else if flt0 v then fneg (fpow2 e) else v).
Proof.
  apply (tuple_mixed_signs_round_low [mixed_sign_example] 0 mixed_sign_example
           (Fin 3) (Fin (- 1)) 0 (Fin 3)).
  - repeat constructor. discriminate.
  - reflexivity.
  - apply list_elem_of_here.
  - apply Rltb_true. lra.
  - apply list_elem_of_further, list_elem_of_here.
  - apply Rltb_true. lra.
  - reflexivity.
Defined.

Lemma range_clamp_keeps_positive (d : list fval) :
  Forall (fun x => fgt0 x = true) d ->
  Forall (fun x => fgt0 x = true) (range_clamp train_scope d).
Proof.
  intros H. rewrite range_clamp_map. apply Forall_map.
  eapply Forall_impl; [exact H |]. intros x Hpos. simpl.
  assert (Hx : x <> NaN) by (intros ->; discriminate).
  assert (Hnot : flt0 x = false).
  { destruct x as [| | | r]; simpl in *; try easy.
    apply Rltb_true in Hpos. apply Rltb_false. lra. }
  destruct (clamp_value_number x Hx) as (c & -> & _ & Hsign).
  rewrite Hnot in Hsign. now apply Rltb_true.
Qed.

Lemma range_clamp_keeps_negative (d : list fval) :
  Forall (fun x => flt0 x = true) d ->
  Forall (fun x => flt0 x = true) (range_clamp train_scope d).
Proof.
  intros H. rewrite range_clamp_map. apply Forall_map.
  eapply Forall_impl; [exact H |]. intros x Hneg. simpl.
  assert (Hx : x <> NaN) by (intros ->; discriminate).
  destruct (clamp_value_number x Hx) as (c & -> & _ & Hsign).
  rewrite Hneg in Hsign. now apply Rltb_true.
Qed.

(** X9. On a member of rank 2 or 3 whose elements are all positive, or all
    negative, the tuple branch returns what the single-tensor branch returns
    for that member (no member of the tuple being empty). *)
Theorem tuple_agrees_on_one_sign (ts : list tensor) (j : nat) (t : tensor) :
  Forall (fun t => data t <> []) ts ->
  ts !! j = Some t ->
  (length (shape t) = 2 \/ length (shape t) = 3)%nat ->
  Forall (fun x => fgt0 x = true) (data t)
  \/ Forall (fun x => flt0 x = true) (data t) ->
  exists outs o,
    forward_tuple train_scope ts = Returned outs
    /\ outs !! j = Some o
    /\ result (forward_tensor train_scope t) = Returned o.
Proof.
  intros Hall Hj Hrank Hsign.
  exists (map (tuple_member_output train_scope) ts),
         (tuple_member_output train_scope t).
  split; [now apply forward_tuple_nonempty |].
  split; [now rewrite lookup_map, Hj |].
  assert (Hne : data t <> []).
  { rewrite Forall_forall in Hall. apply Hall.
    apply list_elem_of_lookup. eauto. }
  destruct (tuple_member_cases train_scope t) as [[Hd _] | [_ Hmember]];
    [contradiction |].
  assert (Hone : tuple_quantize train_scope
                   (mkTensor (shape t) (range_clamp train_scope (data t)))
                 = mkTensor (shape t)
                     <$> tier_quantize train_scope
                           (range_clamp train_scope (data t))).
  { apply tuple_quantize_one_sign.
    - intros Hnil. now apply range_clamp_nil in Hnil.
    - destruct Hsign as [H | H];
        [left; now apply range_clamp_keeps_positive
        | right; now apply range_clamp_keeps_negative]. }
  rewrite Hmember in Hone.
  unfold forward_tensor, clone. simpl.
  destruct (decide (length (shape t) = 3%nat)); [now rewrite Hone |].
  destruct (decide (length (shape t) = 2%nat)); [now rewrite Hone | lia].
Qed.

Lemma tuple_agrees_on_one_sign_witness :
  exists outs o,
    forward_tuple train_scope [outlier_example] = Returned outs
    /\ outs !! 0%nat = Some o
    /\ result (forward_tensor train_scope outlier_example) = Returned o.
Proof.
  apply (tuple_agrees_on_one_sign [outlier_example] 0 outlier_example).
  - repeat constructor. discriminate.
  - reflexivity.
  - left. reflexivity.
  - left. repeat constructor; apply Rltb_true; lra.
Defined.

(** ** The set-up code of [train] *)

(** X10. After the tokenizer is adjusted, the block size written back to the
    configuration is never above the tokenizer's maximum length: it is the
    smaller of that length and 1024 when the configuration gives none (or
    -1), and the smaller of that length and the configured size otherwise.
    A warning is logged exactly when this is smaller than what was asked
    for, and no other field of the configuration changes. *)
Theorem block_size_resolved (config : LLMTrainingParams) (tok : tokenizer) :
  let tok' := adjust_tokenizer config tok in
  let r := resolve_block_size config tok' in
  exists b : Z,
    r.2 = with_block_size config (Some b)
    /\ (b <= tok_model_max_length tok')%Z
    /\ (block_size config = None \/ block_size config = Some (- 1)%Z ->
        b = Z.min (tok_model_max_length tok') 1024
        /\ (r.1 = [] <-> b = tok_model_max_length tok'))
    /\ (forall c, block_size config = Some c -> c <> (- 1)%Z ->
        b = Z.min c (tok_model_max_length tok')
        /\ (r.1 = [] <-> b = c))
    /\ ((tok_model_max_length tok <= 2048)%Z ->
        tok_model_max_length tok' = tok_model_max_length tok)
    /\ ((2048 < tok_model_max_length tok)%Z ->
        tok_model_max_length tok' = model_max_length config)
    /\ (pad_token tok' = None -> eos_token tok = None).
Proof.
  intros tok' r.
  assert (Htok : ((tok_model_max_length tok <= 2048)%Z ->
                  tok_model_max_length tok' = tok_model_max_length tok)
                 /\ ((2048 < tok_model_max_length tok)%Z ->
                     tok_model_max_length tok' = model_max_length config)
                 /\ (pad_token tok' = None -> eos_token tok = None)).
  { unfold tok', adjust_tokenizer.
    destruct (2048 <? tok_model_max_length tok)%Z eqn:E;
      [apply Z.ltb_lt in E | apply Z.ltb_ge in E];
      simpl; destruct (pad_token tok) eqn:Hp; simpl; repeat split; intros;
      try lia; try congruence. }
  set (m := tok_model_max_length tok') in *.
  assert (Hunset : block_size config = None \/ block_size config = Some (- 1)%Z ->
            exists b, r.2 = with_block_size config (Some b)
                      /\ b = Z.min m 1024 /\ (r.1 = [] <-> b = m)).
  { intros Hb. unfold r, resolve_block_size. fold m.
    assert (Hcfg : (if decide (block_size config = Some (- 1)%Z)
                    then with_block_size config None else config)
                   = with_block_size config None).
    { destruct (decide _); [reflexivity |].
      destruct Hb as [Hb | Hb]; [| contradiction].
      destruct config; simpl in *. now subst. }
    rewrite Hcfg. simpl.
    destruct (1024 <? m)%Z eqn:E;
      [apply Z.ltb_lt in E | apply Z.ltb_ge in E]; simpl.
    - exists 1024%Z. repeat split; try lia; intros; lia || discriminate.
    - exists m. repeat split; try lia; intros; reflexivity. }
  assert (Hset : forall c, block_size config = Some c -> c <> (- 1)%Z ->
            exists b, r.2 = with_block_size config (Some b)
                      /\ b = Z.min c m /\ (r.1 = [] <-> b = c)).
  { intros c Hc Hne. unfold r, resolve_block_size. fold m.
    destruct (decide (block_size config = Some (- 1)%Z)) as [Heq | _];
      [congruence |].
    rewrite Hc. simpl.
    exists (Z.min c m). split; [reflexivity |]. split; [reflexivity |].
    destruct (m <? c)%Z eqn:E;
      [apply Z.ltb_lt in E | apply Z.ltb_ge in E]; simpl;
      split; intros; lia || discriminate || reflexivity. }
  destruct (block_size config) as [c |] eqn:Hbs.
  - destruct (Z.eq_dec c (- 1)%Z) as [-> | Hne].
    + destruct (Hunset (or_intror eq_refl)) as (b & Hr & Hb & Hlog).
      exists b. split; [exact Hr |]. split; [lia |].
      split; [intros _; now split |].
      split; [intros c Hc Hne; congruence | exact Htok].
    + destruct (Hset c eq_refl Hne) as (b & Hr & Hb & Hlog).
      exists b. split; [exact Hr |]. split; [lia |].
      split; [intros [H | H]; congruence |].
      split; [| exact Htok].
      intros c' Hc' _. injection Hc' as <-. now split.
  - destruct (Hunset (or_introl eq_refl)) as (b & Hr & Hb & Hlog).
    exists b. split; [exact Hr |]. split; [lia |].
    split; [intros _; now split |].
    split; [intros c Hc; discriminate | exact Htok].
Qed.

Lemma py_int_fifth (n : Z) (p : positive) :
  (0 <= n)%Z ->
  let k := py_int (0.2 * inject_Z n / inject_Z (Zpos p))%Q in
  (0 <= k)%Z /\ (5 * Zpos p * k <= n)%Z /\ (n < 5 * Zpos p * (k + 1))%Z.
Proof.
  intros Hn k. unfold k, py_int.
  unfold Qle_bool, Qfloor, Qdiv, Qmult, Qinv, inject_Z. simpl.
  rewrite !Pos2Z.inj_mul.
  replace (2 * n * 1 * 1)%Z with (2 * n)%Z by lia.
  replace (2 * n * 1)%Z with (2 * n)%Z by lia.
  replace (10 * 1 * Z.pos p)%Z with (10 * Z.pos p)%Z by lia.
  rewrite (proj2 (Z.leb_le _ _)) by lia.
  set (d := (10 * Z.pos p)%Z).
  assert (Hd : (0 < d)%Z) by (unfold d; lia).
  pose proof (Z.mul_div_le (2 * n) d Hd) as H1.
  pose proof (Z.mul_succ_div_gt (2 * n) d Hd) as H2.
  pose proof (Z.div_pos (2 * n) d ltac:(lia) Hd) as H3.
  unfold d in *. split; [exact H3 |]. lia.
Qed.

(** X11. When the configuration leaves the logging interval to the code
    ([logging_steps = -1]) and the batch size is positive, the interval is
    at least 1: it is a fifth of the number of batches in the validation
    set (in the training set without a validation split), rounded down, and
    1 when that is zero. *)
Theorem logging_steps_auto (config : LLMTrainingParams)
  (len_train_data len_valid_data : Z) :
  let n := match valid_split config with
           | Some _ => len_valid_data
           | None => len_train_data
           end in
  logging_steps config = (- 1)%Z ->
  (0 < batch_size config)%Z ->
  (0 <= n)%Z ->
  exists k : Z,
    choose_logging_steps config len_train_data len_valid_data = Returned k
    /\ (1 <= k)%Z
    /\ (k = 1%Z \/ (5 * batch_size config * k <= n)%Z)
    /\ (n < 5 * batch_size config * (k + 1))%Z.
Proof.
  intros n Hauto Hbs Hn. unfold choose_logging_steps. fold n.
  rewrite Hauto. simpl.
  destruct (batch_size config) as [| p | p] eqn:Ebs; try lia. simpl.
  destruct (py_int_fifth n p Hn) as (H0 & Hlo & Hhi).
  set (k := py_int (0.2 * inject_Z n / inject_Z (Z.pos p))%Q) in *.
  destruct (k =? 0)%Z eqn:Ek; [apply Z.eqb_eq in Ek | apply Z.eqb_neq in Ek].
  - exists 1%Z. split; [reflexivity |]. split; [lia |]. split; [now left |].
    rewrite Ek in Hhi. lia.
  - exists k. split; [reflexivity |]. split; [lia |]. split; [now right |].
    exact Hhi.
Qed.

Lemma logging_steps_auto_witness :
  exists k : Z,
    choose_logging_steps
      (mkParams None None "project" (Some "validation"%string) "default"
         true false None 1024%Z (- 1)%Z 4%Z "epoch" "text")
      1000%Z 103%Z
    = Returned k
    /\ (1 <= k)%Z
    /\ (k = 1%Z \/ (5 * 4 * k <= 103)%Z)
    /\ (103 < 5 * 4 * (k + 1))%Z.
Proof.
  apply (logging_steps_auto
           (mkParams None None "project" (Some "validation"%string) "default"
              true false None 1024%Z (- 1)%Z 4%Z "epoch" "text")
           1000%Z 103%Z).
  - reflexivity.
  - reflexivity.
  - discriminate.
Defined.

Lemma choose_logging_steps_raises (config : LLMTrainingParams)
  (len_train_data len_valid_data : Z) :
  (logging_steps config = (- 1)%Z /\ batch_size config = 0%Z
   /\ choose_logging_steps config len_train_data len_valid_data
      = Raised "ZeroDivisionError")
  \/ (~ (logging_steps config = (- 1)%Z /\ batch_size config = 0%Z)
      /\ exists k,
           choose_logging_steps config len_train_data len_valid_data
           = Returned k
           /\ (logging_steps config <> (- 1)%Z -> k = logging_steps config)).
Proof.
  unfold choose_logging_steps.
  destruct (logging_steps config =? -1)%Z eqn:E1;
    [apply Z.eqb_eq in E1 | apply Z.eqb_neq in E1].
  - destruct (batch_size config =? 0)%Z eqn:E2;
      [apply Z.eqb_eq in E2 | apply Z.eqb_neq in E2].
    + left. auto.
    + right. split; [tauto |]. eexists. split; [reflexivity |]. tauto.
  - right. split; [tauto |]. eexists. split; [reflexivity |]. tauto.
Qed.

(** X12. A trainer is built only when the trainer name is "default" (a
    Trainer) or "sft" (an SFTTrainer), and never when the logging interval
    is left to the code with a batch size of zero: with a validation split,
    line 495 then raises ZeroDivisionError before the trainer name is looked
    at.  A configured logging interval reaches the training arguments as it
    is, zero included. *)
Theorem trainer_is_built_only_if (config : LLMTrainingParams)
  (len_train_data len_valid_data : Z) :
  (logging_steps config = (- 1)%Z -> batch_size config = 0%Z ->
   valid_split config <> None ->
   create_trainer config len_train_data len_valid_data
   = Raised "ZeroDivisionError")
  /\ forall tr,
       create_trainer config len_train_data len_valid_data = Returned tr ->
       ~ (logging_steps config = (- 1)%Z /\ batch_size config = 0%Z)
       /\ ((trainer config = "default"%string /\ trainer_cls tr = Trainer)
           \/ (trainer config = "sft"%string /\ trainer_cls tr = SFTTrainer))
       /\ (logging_steps config <> (- 1)%Z ->
           args_logging_steps (trainer_args tr) = logging_steps config).
Proof.
  unfold create_trainer.
  destruct (choose_logging_steps_raises config len_train_data len_valid_data)
    as [(H1 & H2 & Hr) | (Hnot & k & Hr & Hk)]; rewrite Hr; simpl.
  - split; [reflexivity |]. intros tr Htr. discriminate.
  - split; [intros Ha Hb _; exfalso; apply Hnot; now split |].
    intros tr.
    destruct (String.eqb (trainer config) "default") eqn:Ed;
      [apply String.eqb_eq in Ed |].
    { intros Htr. injection Htr as <-. simpl.
      split; [exact Hnot |]. split; [now left | exact Hk]. }
    destruct (String.eqb (trainer config) "sft") eqn:Es;
      [apply String.eqb_eq in Es | discriminate].
    intros Htr. injection Htr as <-. simpl.
    split; [exact Hnot |]. split; [now right | exact Hk].
Qed.

Ltac solve_members :=
  repeat match goal with
         | H : _ ∈ [] |- _ => now apply elem_of_nil in H
         | H : _ ∈ _ :: _ |- _ => apply elem_of_cons in H as [H | H]
         | H : ?a = ?b |- _ => discriminate H
         | |- _ ∉ _ => let H := fresh in intros H
         | |- ?x ∈ ?x :: _ => apply list_elem_of_here
         | |- _ ∈ _ :: _ => apply list_elem_of_further
         end.

(** X13. Whenever the trainer is built: the callback that reloads the best
    PEFT model is installed only on the default trainer, with PEFT and a
    validation split, after the callback that saves the model, and then the
    arguments ask for the best model to be loaded at the end and an
    evaluation set is given.  Without a validation split evaluation is set
    to "no" and nothing is reloaded.  The SFT trainer is given no callback,
    with PEFT or without. *)
Theorem trainer_callbacks_coherent (config : LLMTrainingParams)
  (len_train_data len_valid_data : Z) (tr : trainer_object) :
  create_trainer config len_train_data len_valid_data = Returned tr ->
  (LoadBestPeftModelCallback ∈ trainer_callbacks tr ->
   trainer_cls tr = Trainer
   /\ use_peft config = true
   /\ valid_split config <> None
   /\ trainer_callbacks tr = [SavePeftModelCallback; LoadBestPeftModelCallback]
   /\ load_best_model_at_end (trainer_args tr) = true
   /\ has_eval_dataset tr = true)
  /\ (valid_split config = None ->
      args_evaluation_strategy (trainer_args tr) = "no"%string
      /\ load_best_model_at_end (trainer_args tr) = false
      /\ has_eval_dataset tr = false
      /\ (LoadBestPeftModelCallback ∉ trainer_callbacks tr))
  /\ (trainer_cls tr = SFTTrainer ->
      trainer_callbacks tr = [] /\ has_peft_config tr = use_peft config)
  /\ (trainer_cls tr = Trainer ->
      (SavePeftModelCallback ∈ trainer_callbacks tr <-> use_peft config = true))
  /\ args_push_to_hub (trainer_args tr) = false.
Proof.
  unfold create_trainer.
  destruct (choose_logging_steps config len_train_data len_valid_data)
    as [k | e]; simpl; [| discriminate].
  assert (Hvalid : valid_split config = None
                   \/ exists v, valid_split config = Some v).
  { destruct (valid_split config); eauto. }
  destruct (String.eqb (trainer config) "default").
  - intros H. injection H as <-. simpl.
    destruct Hvalid as [Hv | [v Hv]]; rewrite Hv; simpl;
      destruct (use_peft config); simpl;
      repeat split; intros; try discriminate; try congruence;
      solve_members.
  - destruct (String.eqb (trainer config) "sft"); [| discriminate].
    intros H. injection H as <-. simpl.
    destruct Hvalid as [Hv | [v Hv]]; rewrite Hv; simpl;
      repeat split; intros; try discriminate; try congruence;
      solve_members.
Qed.

Lemma trainer_callbacks_coherent_witness :
  (LoadBestPeftModelCallback ∈ trainer_callbacks example_trainer ->
   trainer_cls example_trainer = Trainer
   /\ use_peft example_params = true
   /\ valid_split example_params <> None
   /\ trainer_callbacks example_trainer
      = [SavePeftModelCallback; LoadBestPeftModelCallback]
   /\ load_best_model_at_end (trainer_args example_trainer) = true
   /\ has_eval_dataset example_trainer = true)
  /\ (valid_split example_params = None ->
      args_evaluation_strategy (trainer_args example_trainer) = "no"%string
      /\ load_best_model_at_end (trainer_args example_trainer) = false
      /\ has_eval_dataset example_trainer = false
      /\ (LoadBestPeftModelCallback ∉ trainer_callbacks example_trainer))
  /\ (trainer_cls example_trainer = SFTTrainer ->
      trainer_callbacks example_trainer = []
      /\ has_peft_config example_trainer = use_peft example_params)
  /\ (trainer_cls example_trainer = Trainer ->
      (SavePeftModelCallback ∈ trainer_callbacks example_trainer
       <-> use_peft example_params = true))
  /\ args_push_to_hub (trainer_args example_trainer) = false.
Proof.
  apply (trainer_callbacks_coherent example_params 1000%Z 103%Z example_trainer).
  reflexivity.
Defined.

(** ** Pushing to the hub and pausing *)

Lemma pause_keeps (config : LLMTrainingParams) (process_index : Z)
  (environ : gmap string string) (s : session) :
  files (pause config process_index environ s) = files s
  /\ status (pause config process_index environ s) = status s
  /\ exists extra,
       api_calls (pause config process_index environ s)
       = api_calls s ++ extra
       /\ (forall c, c ∈ extra ->
             process_index = 0%Z
             /\ ((exists sid, c = PauseSpace sid
                              /\ environ !! "SPACE_ID"%string = Some sid)
                 \/ (c = PauseEndpoint
                     /\ is_Some (environ !! "ENDPOINT_ID"%string))))
       /\ (process_index = 0%Z ->
           forall sid, environ !! "SPACE_ID"%string = Some sid ->
                       PauseSpace sid ∈ extra).
Proof.
  unfold pause.
  destruct (process_index =? 0)%Z eqn:Ep;
    [apply Z.eqb_eq in Ep | apply Z.eqb_neq in Ep].
  - destruct (environ !! "SPACE_ID"%string) as [sid |] eqn:Es;
      destruct (environ !! "ENDPOINT_ID"%string) as [eid |] eqn:Ee; simpl;
      (split; [reflexivity |]); (split; [reflexivity |]).
    + exists [PauseSpace sid; PauseEndpoint].
      split; [now rewrite <- app_assoc |]. split.
      * intros c Hc. split; [exact Ep |].
        apply elem_of_cons in Hc as [-> | Hc]; [left; eauto |].
        apply elem_of_cons in Hc as [-> | Hc]; [right; eauto |].
        now apply elem_of_nil in Hc.
      * intros _ sid' H. injection H as <-. apply list_elem_of_here.
    + exists [PauseSpace sid]. split; [reflexivity |]. split.
      * intros c Hc. split; [exact Ep |].
        apply elem_of_cons in Hc as [-> | Hc]; [left; eauto |].
        now apply elem_of_nil in Hc.
      * intros _ sid' H. injection H as <-. apply list_elem_of_here.
    + exists [PauseEndpoint]. split; [reflexivity |]. split.
      * intros c Hc. split; [exact Ep |].
        apply elem_of_cons in Hc as [-> | Hc]; [right; eauto |].
        now apply elem_of_nil in Hc.
      * intros _ sid' H. discriminate.
    + exists []. split; [now rewrite app_nil_r |]. split.
      * intros c Hc. now apply elem_of_nil in Hc.
      * intros _ sid' H. discriminate.
  - split; [reflexivity |]. split; [reflexivity |].
    exists []. split; [now rewrite app_nil_r |]. split.
    + intros c Hc. now apply elem_of_nil in Hc.
    + intros H. contradiction.
Qed.

(** The three ways lines 602-611 can go. *)
Lemma push_cases (config : LLMTrainingParams) (process_index : Z)
  (environ : gmap string string)
  (fs : gmap string (gmap string json_value)) :
  let s := push_and_pause config process_index environ fs in
  let path := training_params_path config in
  ((push_to_hub config = false \/ process_index <> 0%Z)
   /\ s = pause config process_index environ (mkSession fs [] [] (Returned tt)))
  \/ (push_to_hub config = true /\ process_index = 0%Z
      /\ (exists o, fs !! path = Some o /\ o !! "token"%string = None)
      /\ s = mkSession fs [] [LogInfo "Pushing model to hub..."]
               (Raised "KeyError: 'token'"))
  \/ (push_to_hub config = true /\ process_index = 0%Z
      /\ exists fs',
           ((fs !! path = None /\ fs' = fs)
            \/ (exists o, fs !! path = Some o
                          /\ is_Some (o !! "token"%string)
                          /\ fs' = <[path := delete "token"%string o]> fs))
           /\ s = pause config process_index environ
                    (mkSession fs'
                       [CreateRepo (repo_id config) true;
                        UploadFolder (project_name config) (repo_id config) fs']
                       [LogInfo "Pushing model to hub..."] (Returned tt))).
Proof.
  intros s path. unfold s, push_and_pause. fold path.
  destruct (push_to_hub config); [| left; split; [now left | reflexivity]].
  destruct (process_index =? 0)%Z eqn:Ep;
    [apply Z.eqb_eq in Ep | apply Z.eqb_neq in Ep];
    [| left; split; [now right | reflexivity]].
  right.
  destruct (fs !! path) as [o |] eqn:Ef.
  - destruct (o !! "token"%string) as [v |] eqn:Et; simpl.
    + right. split; [reflexivity |]. split; [exact Ep |].
      eexists. split; [| reflexivity].
      right. exists o. split; [reflexivity |]. split; [eauto | reflexivity].
    + left. split; [reflexivity |]. split; [exact Ep |].
      split; [eauto | reflexivity].
  - simpl. right. split; [reflexivity |]. split; [exact Ep |].
    eexists. split; [| reflexivity]. now left.
Qed.

(** X14. Whatever the configuration, the process, the environment and the
    files: a training_params.json that is uploaded holds no "token" entry,
    and is otherwise the file that was there; every other file is uploaded
    as it was, and what is uploaded is what is left on disk. *)
Theorem token_is_never_uploaded (config : LLMTrainingParams)
  (process_index : Z) (environ : gmap string string)
  (fs : gmap string (gmap string json_value))
  (folder : string) (repo : option string)
  (uploaded : gmap string (gmap string json_value)) :
  let s := push_and_pause config process_index environ fs in
  UploadFolder folder repo uploaded ∈ api_calls s ->
  folder = project_name config
  /\ repo = repo_id config
  /\ uploaded = files s
  /\ status s = Returned tt
  /\ (forall o, uploaded !! training_params_path config = Some o ->
        o !! "token"%string = None
        /\ exists o0, fs !! training_params_path config = Some o0
                      /\ forall k, k <> "token"%string -> o !! k = o0 !! k)
  /\ (forall p, p <> training_params_path config -> uploaded !! p = fs !! p).
Proof.
  intros s Hin.
  destruct (push_cases config process_index environ fs)
    as [(_ & Hs) | [(_ & _ & _ & Hs) | (_ & _ & fs' & Hfs & Hs)]];
    fold s in Hs.
  - destruct (pause_keeps config process_index environ
                (mkSession fs [] [] (Returned tt)))
      as (_ & _ & extra & Hcalls & Hextra & _).
    rewrite Hs, Hcalls in Hin. simpl in Hin.
    destruct (Hextra _ Hin) as (_ & [(sid & H & _) | (H & _)]); discriminate.
  - rewrite Hs in Hin. simpl in Hin. now apply elem_of_nil in Hin.
  - destruct (pause_keeps config process_index environ
                (mkSession fs'
                   [CreateRepo (repo_id config) true;
                    UploadFolder (project_name config) (repo_id config) fs']
                   [LogInfo "Pushing model to hub..."] (Returned tt)))
      as (Hfiles & Hstatus & extra & Hcalls & Hextra & _).
    rewrite <- Hs in Hfiles, Hstatus, Hcalls. simpl in *.
    rewrite Hcalls in Hin.
    apply elem_of_cons in Hin as [Hin | Hin]; [discriminate |].
    apply elem_of_cons in Hin as [Hin | Hin].
    + injection Hin as -> -> ->.
      split; [reflexivity |]. split; [reflexivity |].
      split; [now rewrite Hfiles |]. split; [exact Hstatus |].
      destruct Hfs as [(Hnone & ->) | (o0 & Hsome & _ & ->)].
      * split; [| reflexivity]. intros o Ho. congruence.
      * split.
        -- intros o Ho. rewrite lookup_insert_eq in Ho. injection Ho as <-.
           split; [apply lookup_delete_eq |].
           exists o0. split; [exact Hsome |].
           intros k Hk. now apply lookup_delete_ne.
        -- intros p Hp. now apply lookup_insert_ne.
    + destruct (Hextra _ Hin) as (_ & [(sid & H & _) | (H & _)]); discriminate.
Qed.

Lemma token_is_never_uploaded_witness :
  "project"%string = project_name example_params
  /\ Some "user/project"%string = repo_id (set_repo_id example_params)
  /\ <["project/training_params.json"%string :=
         {[ "lr"%string := JNum 3 ]}]> example_files
     = files (push_and_pause (set_repo_id example_params) 0 ∅ example_files)
  /\ status (push_and_pause (set_repo_id example_params) 0 ∅ example_files)
     = Returned tt
  /\ (forall o,
        (<["project/training_params.json"%string :=
             {[ "lr"%string := JNum 3 ]}]> example_files)
          !! training_params_path (set_repo_id example_params) = Some o ->
        o !! "token"%string = None
        /\ exists o0,
             example_files !! training_params_path (set_repo_id example_params)
             = Some o0
             /\ forall k, k <> "token"%string -> o !! k = o0 !! k)
  /\ (forall p, p <> training_params_path (set_repo_id example_params) ->
        (<["project/training_params.json"%string :=
             {[ "lr"%string := JNum 3 ]}]> example_files) !! p
        = example_files !! p).
Proof.
  apply (token_is_never_uploaded (set_repo_id example_params) 0 ∅
           example_files "project" (Some "user/project"%string)
           (<["project/training_params.json"%string :=
                {[ "lr"%string := JNum 3 ]}]> example_files)).
  vm_compute. apply list_elem_of_further, list_elem_of_here.
Defined.

(** X15. On the main process with [push_to_hub] set, when
    training_params.json is there without a "token" entry, line 607 raises
    KeyError right after the "Pushing model to hub..." line is logged: no
    repository has been created, nothing is uploaded, nothing is paused by
    these lines, and the files are left as they were. *)
Theorem missing_token_stops_the_push (config : LLMTrainingParams)
  (process_index : Z) (environ : gmap string string)
  (fs : gmap string (gmap string json_value)) (o : gmap string json_value) :
  push_to_hub config = true ->
  process_index = 0%Z ->
  fs !! training_params_path config = Some o ->
  o !! "token"%string = None ->
  push_and_pause config process_index environ fs
  = mkSession fs [] [LogInfo "Pushing model to hub..."]
      (Raised "KeyError: 'token'").
Proof.
  intros Hpush Hp Hfile Htoken.
  destruct (push_cases config process_index environ fs)
    as [([Hoff | Hoff] & _) | [(_ & _ & _ & Hs) | (_ & _ & fs' & Hfs & _)]].
  - congruence.
  - contradiction.
  - exact Hs.
  - destruct Hfs as [(Hnone & _) | (o0 & Hsome & [v Hv] & _)]; congruence.
Qed.

Lemma missing_token_stops_the_push_witness :
  push_and_pause example_params 0
    {[ "SPACE_ID"%string := "user/space"%string ]}
    example_files_without_token
  = mkSession example_files_without_token []
      [LogInfo "Pushing model to hub..."] (Raised "KeyError: 'token'").
Proof.
  apply (missing_token_stops_the_push example_params 0
           {[ "SPACE_ID"%string := "user/space"%string ]}
           example_files_without_token {[ "lr"%string := JNum 3 ]}).
  - reflexivity.
  - reflexivity.
  - now vm_compute.
  - now vm_compute.
Defined.

(** X16. A process other than the main one makes no call to the hub: it
    creates no repository, uploads nothing, pauses nothing, and leaves the
    files as they are. *)
Theorem only_the_main_process_calls_the_hub (config : LLMTrainingParams)
  (process_index : Z) (environ : gmap string string)
  (fs : gmap string (gmap string json_value)) :
  process_index <> 0%Z ->
  push_and_pause config process_index environ fs
  = mkSession fs [] [] (Returned tt).
Proof.
  intros Hp. unfold push_and_pause, pause.
  apply Z.eqb_neq in Hp.
  destruct (push_to_hub config); rewrite ?Hp; simpl; now rewrite ?Hp.
Qed.

Lemma only_the_main_process_calls_the_hub_witness :
  push_and_pause example_params 1 {[ "SPACE_ID"%string := "user/space"%string ]}
    example_files
  = mkSession example_files [] [] (Returned tt).
Proof.
  apply (only_the_main_process_calls_the_hub example_params 1
           {[ "SPACE_ID"%string := "user/space"%string ]} example_files).
  discriminate.
Defined.

(** X17. With the repository name settled as at the start of [train], the
    repository that is created, always as a private one, and the one the
    folder is uploaded to are the configured [repo_id] when there is one,
    and otherwise [username/project_name]; with neither, both calls are made
    without a repository name. *)
Theorem hub_repository (config : LLMTrainingParams) (process_index : Z)
  (environ : gmap string string)
  (fs : gmap string (gmap string json_value)) (c : api_call) :
  let expected :=
    match repo_id config, username config with
    | Some r, _ => Some r
    | None, Some u => Some (u +:+ "/" +:+ project_name config)%string
    | None, None => None
    end in
  c ∈ api_calls (push_and_pause (set_repo_id config) process_index environ fs) ->
  (forall r p, c = CreateRepo r p -> r = expected /\ p = true)
  /\ (forall f r u, c = UploadFolder f r u ->
        r = expected /\ f = project_name config).
Proof.
  intros expected Hin.
  assert (Hrepo : repo_id (set_repo_id config) = expected).
  { unfold set_repo_id, expected.
    destruct (repo_id config) eqn:Er, (username config) eqn:Eu; simpl;
      try rewrite Er; reflexivity. }
  assert (Hname : project_name (set_repo_id config) = project_name config).
  { unfold set_repo_id.
    destruct (repo_id config), (username config); reflexivity. }
  destruct (push_cases (set_repo_id config) process_index environ fs)
    as [(_ & Hs) | [(_ & _ & _ & Hs) | (_ & _ & fs' & _ & Hs)]];
    rewrite Hs in Hin; clear Hs.
  - destruct (pause_keeps (set_repo_id config) process_index environ
                (mkSession fs [] [] (Returned tt)))
      as (_ & _ & extra & Hcalls & Hextra & _).
    rewrite Hcalls in Hin. simpl in Hin.
    destruct (Hextra _ Hin) as (_ & [(sid & -> & _) | (-> & _)]);
      split; intros; discriminate.
  - simpl in Hin. now apply elem_of_nil in Hin.
  - destruct (pause_keeps (set_repo_id config) process_index environ
                (mkSession fs'
                   [CreateRepo (repo_id (set_repo_id config)) true;
                    UploadFolder (project_name (set_repo_id config))
                      (repo_id (set_repo_id config)) fs']
                   [LogInfo "Pushing model to hub..."] (Returned tt)))
      as (_ & _ & extra & Hcalls & Hextra & _).
    rewrite Hcalls in Hin. simpl in Hin.
    apply elem_of_cons in Hin as [-> | Hin].
    { split; intros; [| discriminate].
      injection H as <- <-. now rewrite Hrepo. }
    apply elem_of_cons in Hin as [-> | Hin].
    { split; intros; [discriminate |].
      injection H as <- <- _. now rewrite Hrepo, Hname. }
    destruct (Hextra _ Hin) as (_ & [(sid & -> & _) | (-> & _)]);
      split; intros; discriminate.
Qed.

Lemma hub_repository_witness :
  (forall r p,
     CreateRepo (Some "user/project"%string) true = CreateRepo r p ->
     r = Some ("user" +:+ "/" +:+ project_name example_params)%string
     /\ p = true)
  /\ (forall f r u,
        CreateRepo (Some "user/project"%string) true = UploadFolder f r u ->
        r = Some ("user" +:+ "/" +:+ project_name example_params)%string
        /\ f = project_name example_params).
Proof.
  apply (hub_repository example_params 0 ∅ example_files
           (CreateRepo (Some "user/project"%string) true)).
  vm_compute. apply list_elem_of_here.
Defined.
